(** * iotex-antenna-lite: [Iotx.sendRawTransaction]

    A shallow embedding of the legacy-transaction translation of
    [src/iotx.ts] (lines 91-158): an RLP-encoded, EIP-155-signed
    transaction is decoded, its signer's public key is recovered under the
    caller's chain id, the recipient is classified through [getAccount] and
    the resulting action is handed to [sendAction].

    Definitions:
    - [Bytes]: Buffers, big-endian integers and the helpers of
      ethereumjs-util (7.0) that the function calls;
    - [Rlp]: the encoder and decoder of the rlp package (2.2);
    - [BigNum]: the part of bignumber.js the function uses;
    - [Antenna]: the request and response records, the log of RPC calls and
      [sendRawTransaction] itself; the hash, the curve, the address codec
      and the RPC client are parameters;
    - [Reference]: the wording of the specification where it is compared
      with the code;
    - [Examples]: concrete transactions and stand-ins for the parameters.

    Theorems: [BytesFacts], [RlpFacts] (decoding inverts encoding),
    [RlpTotal] (the decoder's errors), [AntennaFacts] (the function as the
    composition of [translate] and [submit]) and [Properties] (the
    properties of the translation).

    The other functions of [Iotx] (lines 59-89 and 160-295) follow:
    - [Canonical], [Numeral], [Hex]: Buffers without leading zeros, decimal
      numerals, and the hexadecimal strings of [toString("hex")],
      [Buffer.from(s, "hex")] and [keccakFromHexString];
    - [Effects]: computations that log the calls they await;
    - [Gas]: [estimateGas];
    - [Flows]: [tryGetAccount], [sendTransfer], [deployContract],
      [executeContract], [readContractByMethod] and
      [claimFromRewardingFund]; the classes of the other modules of the
      package are parameters;
    - [Scenes]: concrete requests for them.

    Their theorems are in [HexFacts], [BufferValues], [Numerals],
    [LibraryProperties], [TransactionProperties], [GasFacts],
    [GasProperties], [Agreement] ([estimateGas] against
    [sendRawTransaction]), [FlowProperties] and [Scenarios].  The
    constructor, which only starts a timer, and [currentProvider], which
    returns a field, are not modelled.

    JavaScript numbers are modelled by exact integers.  This is exact on the
    paths that reach [getAccount] or [sendAction]: [bufferToInt] bounds the
    recovery value by 2^53 and [ecrecover] forces [2 * chainID + 35] below
    it, so every intermediate value is a safe integer there. *)

From Stdlib Require Import String Ascii.
From Stdlib.Strings Require Import Byte.
From Stdlib Require Import Decimal DecimalString.
From Stdlib Require DecimalFacts DecimalPos DecimalN.
From Stdlib Require Import ZArith List Bool Lia.
Import ListNotations.

#[local] Set Warnings "-register-all".

Open Scope Z_scope.

(** ** Results of fallible code *)

(** The thrown [Error] values, named after the place that throws them. *)
Inductive Error : Type :=
| DecodeError (message : string)          (* thrown inside [rlp.decode] *)
| TypeError (message : string)            (* a field of the tuple is [undefined] *)
| RangeError (message : string)           (* [toString("hex")] of a number *)
| AddressError (message : string)         (* thrown by [fromBytes] *)
| RecoveryError (message : string)        (* thrown by [bufferToInt], [ecrecover] *)
| ClassificationError (to : string)       (* [`can't fetch ${to} account info`] *)
| TransportError (message : string)       (* a rejected [getAccount] or [sendAction] *)
| NotModelled (what : string).            (* outside the domain of this model *)

Inductive result (A : Type) : Type :=
| Ok (a : A)
| Err (e : Error).
Arguments Ok {A} a.
Arguments Err {A} e.

Definition isOk {A} (r : result A) : bool :=
  match r with Ok _ => true | Err _ => false end.

(** ** Buffers *)

Module Bytes.

Definition Buffer := list byte.

Definition byteVal (b : byte) : Z := Z.of_N (Byte.to_N b).

Definition byteOf (z : Z) : byte :=
  match Byte.of_N (Z.to_N z) with
  | Some b => b
  | None => x00
  end.

Definition len (b : Buffer) : Z := Z.of_nat (List.length b).

(** [b.slice(s, e)] and [b.slice(s)] for non-negative indices: both ends are
    clamped to the buffer. *)
Definition slice (b : Buffer) (s e : Z) : Buffer :=
  firstn (Z.to_nat (e - s)) (skipn (Z.to_nat s) b).

Definition sliceFrom (b : Buffer) (s : Z) : Buffer :=
  skipn (Z.to_nat s) b.

(** The unsigned big-endian value of a buffer ([new BN(b)], [parseInt] of its
    hex form). *)
Definition beValue (b : Buffer) : Z :=
  fold_left (fun acc x => acc * 256 + byteVal x) b 0.

(** One step of [beValue], for the proofs about it. *)
Definition beStep (acc : Z) (x : byte) : Z := acc * 256 + byteVal x.

(** The shortest big-endian form of a non-negative integer; empty for 0. *)
Fixpoint beBytesAux (fuel : nat) (n : Z) (acc : Buffer) : Buffer :=
  match fuel with
  | O => acc
  | S fuel' =>
      if n <=? 0 then acc
      else beBytesAux fuel' (n / 256) (byteOf (n mod 256) :: acc)
  end.

Definition beBytes (n : Z) : Buffer :=
  beBytesAux (S (Z.to_nat (Z.log2 n))) n [].

(** [intToBuffer(i)]: the hex form of [i], padded to an even number of digits
    and read back as bytes; [0] is the single byte [00]. *)
Definition intToBuffer (i : Z) : Buffer :=
  if i =? 0 then [x00] else beBytes i.

(** [toBuffer(v)] for a number [v]. *)
Definition toBuffer (v : Z) : Buffer := intToBuffer v.

(** [unpadBuffer(b)] (stripZeros): drops the leading zero bytes. *)
Fixpoint unpadBuffer (b : Buffer) : Buffer :=
  match b with
  | x :: b' => if byteVal x =? 0 then unpadBuffer b' else b
  | [] => []
  end.

Definition zeros (n : nat) : Buffer := repeat x00 n.

(** [setLength(msg, length)]: left-pads with zeros, or keeps the last
    [length] bytes of a longer buffer ([msg.slice(-length)]). *)
Definition setLength (msg : Buffer) (length : nat) : Buffer :=
  if Nat.ltb (List.length msg) length
  then zeros (length - List.length msg) ++ msg
  else skipn (List.length msg - length) msg.

(** [bufferToInt(b)]: [new BN(b).toNumber()], which refuses more than 53
    bits. *)
Definition bufferToInt (b : Buffer) : result Z :=
  let n := beValue b in
  if n <? 2 ^ 53 then Ok n
  else Err (RecoveryError "Number can only safely store up to 53 bits").

End Bytes.
Import Bytes.

(** ** The rlp package *)

Module Rlp.

(** What [rlp.decode] returns and [rlp.encode] accepts: a Buffer or a nested
    array of them. *)
Inductive Input : Type :=
| Buf (b : Buffer)
| Arr (items : list Input).

Definition encodeLength (len offset : Z) : Buffer :=
  if len <? 56 then [byteOf (len + offset)]
  else
    let hexLength := beBytes len in
    let lLength := Bytes.len hexLength in
    byteOf (offset + 55 + lLength) :: hexLength.

Fixpoint encode (input : Input) : Buffer :=
  match input with
  | Arr items =>
      let buf := concat (map encode items) in
      encodeLength (len buf) 192 ++ buf
  | Buf inputBuf =>
      match inputBuf with
      | [x] => if byteVal x <? 128 then inputBuf
               else encodeLength (len inputBuf) 128 ++ inputBuf
      | _ => encodeLength (len inputBuf) 128 ++ inputBuf
      end
  end.

Record Decoded : Type := mkDecoded { data : Input; remainder : Buffer }.

(** [safeParseInt(b.toString('hex'), 16)] on a non-empty slice. *)
Definition safeParseInt (v : Buffer) : result Z :=
  match v with
  | x :: _ =>
      if byteVal x =? 0 then Err (DecodeError "invalid RLP: extra zeros")
      else Ok (beValue v)
  | [] => Ok 0
  end.

(** The [while (innerRemainder.length)] loop of [_decode], over the decoder
    for one item.  Each round consumes at least one byte, so [n] rounds are
    enough for a remainder of [n] bytes. *)
Fixpoint decodeItems (dec : Buffer -> result Decoded) (n : nat)
    (innerRemainder : Buffer) : result (list Input) :=
  match innerRemainder with
  | [] => Ok []
  | _ :: _ =>
      match n with
      | O => Err (NotModelled "fuel")
      | S n' =>
          match dec innerRemainder with
          | Err e => Err e
          | Ok d =>
              match decodeItems dec n' (remainder d) with
              | Err e => Err e
              | Ok decoded => Ok (data d :: decoded)
              end
          end
      end
  end.

Fixpoint _decode (fuel : nat) (input : Buffer) : result Decoded :=
  match fuel with
  | O => Err (NotModelled "fuel")
  | S fuel' =>
      match input with
      | [] => Err (DecodeError "invalid rlp, List has a invalid length")
      | first :: _ =>
          let firstByte := byteVal first in
          if firstByte <=? 127 then
            Ok (mkDecoded (Buf (slice input 0 1)) (sliceFrom input 1))
          else if firstByte <=? 183 then
            let length := firstByte - 127 in
            let data := if firstByte =? 128 then [] else slice input 1 length in
            if (length =? 2) &&
               match data with x :: _ => byteVal x <? 128 | [] => false end
            then Err (DecodeError "invalid rlp encoding: byte must be less 0x80")
            else Ok (mkDecoded (Buf data) (sliceFrom input length))
          else if firstByte <=? 191 then
            let llength := firstByte - 182 in
            if len input - 1 <? llength
            then Err (DecodeError "invalid RLP: not enough bytes for string length")
            else
              match safeParseInt (slice input 1 llength) with
              | Err e => Err e
              | Ok length =>
                  if length <=? 55
                  then Err (DecodeError
                         "invalid RLP: expected string length to be greater than 55")
                  else
                    let data := slice input llength (length + llength) in
                    if len data <? length
                    then Err (DecodeError "invalid RLP: not enough bytes for string")
                    else Ok (mkDecoded (Buf data)
                               (sliceFrom input (length + llength)))
              end
          else if firstByte <=? 247 then
            let length := firstByte - 191 in
            let innerRemainder := slice input 1 length in
            match decodeItems (_decode fuel') (List.length innerRemainder)
                    innerRemainder with
            | Err e => Err e
            | Ok decoded => Ok (mkDecoded (Arr decoded) (sliceFrom input length))
            end
          else
            let llength := firstByte - 246 in
            match slice input 1 llength with
            | [] => Err (DecodeError "invalid rlp, List has a invalid length")
            | lengthBytes =>
                match safeParseInt lengthBytes with
                | Err e => Err e
                | Ok length =>
                    let totalLength := llength + length in
                    if len input <? totalLength
                    then Err (DecodeError
                           "invalid rlp: total length is larger than the data")
                    else
                      let innerRemainder := slice input llength totalLength in
                      match innerRemainder with
                      | [] => Err (DecodeError
                                "invalid rlp, List has a invalid length")
                      | _ :: _ =>
                          match decodeItems (_decode fuel')
                                  (List.length innerRemainder) innerRemainder with
                          | Err e => Err e
                          | Ok decoded =>
                              Ok (mkDecoded (Arr decoded)
                                    (sliceFrom input totalLength))
                          end
                      end
                end
            end
      end
  end.

(** [rlp.decode(input)]: an empty input decodes to an empty Buffer; anything
    left after the first item is an error.  The nesting of an encoding is
    bounded by its length, which is the fuel. *)
Definition decode (input : Buffer) : result Input :=
  match input with
  | [] => Ok (Buf [])
  | _ :: _ =>
      match _decode (List.length input) input with
      | Err e => Err e
      | Ok decoded =>
          match remainder decoded with
          | [] => Ok (data decoded)
          | _ :: _ => Err (DecodeError "invalid remainder")
          end
      end
  end.

(** The depth of an item, counted from 1; it bounds the fuel [_decode] needs
    on its encoding. *)
Fixpoint nesting (input : Input) : nat :=
  match input with
  | Buf _ => 1
  | Arr items => S (list_max (map nesting items))
  end.

(** Induction over nested arrays. *)
Section InputInd.
Variable P : Input -> Prop.
Hypothesis HBuf : forall b, P (Buf b).
Hypothesis HArr : forall items, Forall P items -> P (Arr items).

Fixpoint Input_nested_ind (input : Input) : P input :=
  match input with
  | Buf b => HBuf b
  | Arr items =>
      HArr items
        ((fix all (l : list Input) : Forall P l :=
            match l with
            | [] => Forall_nil P
            | x :: l' => Forall_cons x (Input_nested_ind x) (all l')
            end) items)
  end.
End InputInd.

(** *** Statements about the decoder

    [roundTrips]: the decoder, given enough fuel, reads an encoded item back
    and leaves what follows it. *)
Definition roundTrips (input : Input) : Prop :=
  len (encode input) < 2 ^ 64 ->
  forall fuel rest, (nesting input <= fuel)%nat ->
    _decode fuel (encode input ++ rest) = Ok (mkDecoded input rest).

(** Every error of the computation is one that the rlp package throws. *)
Definition throwsDecodeError {A} (r : result A) : Prop :=
  forall e, r = Err e -> exists message, e = DecodeError message.

(** A decoder for one item that, on a non-empty input within its bound,
    throws only decode errors and leaves a shorter remainder. *)
Definition progresses (dec : Buffer -> result Decoded) (bound : nat) : Prop :=
  forall b, b <> [] -> (length b <= bound)%nat ->
    throwsDecodeError (dec b) /\
    forall d, dec b = Ok d -> (length (remainder d) < length b)%nat.

End Rlp.

(** ** bignumber.js *)

Module BigNum.

(** The values [sendRawTransaction] can build: integers and NaN. *)
Inductive BigNumber : Type :=
| NaN
| Num (z : Z).

(** [new BigNumber(`0x${b.toString("hex")}`)].  The hex form of an empty
    Buffer is the empty string, and ["0x"] alone is not a number. *)
Definition ofHex (b : Buffer) : BigNumber :=
  match b with
  | [] => NaN
  | _ :: _ => Num (beValue b)
  end.

Definition minus (x : BigNumber) (n : Z) : BigNumber :=
  match x with
  | NaN => NaN
  | Num z => Num (z - n)
  end.

(** [x.toNumber()]; [None] is the number NaN. *)
Definition toNumber (x : BigNumber) : option Z :=
  match x with
  | NaN => None
  | Num z => Some z
  end.

Definition decimal (n : Z) : string :=
  NilZero.string_of_uint (N.to_uint (Z.to_N n)).

Fixpoint stripTrailingZeros (s : string) : string :=
  match s with
  | EmptyString => EmptyString
  | String c s' =>
      match stripTrailingZeros s' with
      | EmptyString =>
          if Ascii.eqb c "0" then EmptyString else String c EmptyString
      | rest => String c rest
      end
  end.

Definition toExponential (str : string) (e : Z) : string :=
  match str with
  | String c (String _ _ as rest) =>
      (String c (String "." rest) ++ "e+" ++ decimal e)%string
  | _ => (str ++ "e+" ++ decimal e)%string
  end.

(** [x.toString()] with the default [EXPONENTIAL_AT] of bignumber.js: an
    integer of 22 digits or more is printed in exponential notation. *)
Definition toString (x : BigNumber) : string :=
  match x with
  | NaN => "NaN"
  | Num z =>
      let digits := decimal (Z.abs z) in
      let e := Z.of_nat (String.length digits) - 1 in
      let str :=
        if 21 <=? e then toExponential (stripTrailingZeros digits) e
        else digits in
      if z <? 0 then String "-" str else str
  end.

End BigNum.

(** ** The translation *)

Module Antenna.

Import BigNum.
Import Rlp(Input, Buf, Arr).

(** [RawTransactionRequest]: [data] is the Buffer that [rlp.decode] reads
    from the request, [chainID] a chain identifier. *)
Record RawTransactionRequest : Type := mkRawTransactionRequest {
  req_chainID : N;
  req_data : Buffer
}.

Record Transfer : Type := mkTransfer {
  transfer_amount : string;
  transfer_recipient : string;
  transfer_payload : Buffer
}.

Record Execution : Type := mkExecution {
  execution_amount : string;
  execution_contract : string;
  execution_data : Buffer
}.

(** [action.core]; [transfer] and [execution] are the two properties that the
    function attaches after it has built the object. *)
Record ActionCore : Type := mkActionCore {
  version : Z;
  nonce : string;
  gasLimit : string;
  gasPrice : string;
  chainID : Z;
  transfer : option Transfer;
  execution : option Execution
}.

Record Action : Type := mkAction {
  core : ActionCore;
  senderPubKey : Buffer;
  signature : Buffer;
  encoding : Z
}.

Record SendActionRequest : Type := mkSendActionRequest { action : Action }.

Record SendActionResponse : Type := mkSendActionResponse { actionHash : string }.

Record AccountMeta : Type := mkAccountMeta { isContract : bool }.

Record GetAccountResponse : Type := mkGetAccountResponse {
  accountMeta : option AccountMeta
}.

(** The two RPC methods that the function awaits; [Err] is a rejected
    promise. *)
Record RpcMethod : Type := mkRpcMethod {
  getAccount : string -> result GetAccountResponse;
  sendAction : SendActionRequest -> result SendActionResponse
}.

(** The RPC calls of one run, in the order they are made. *)
Inductive Call : Type :=
| GetAccountCall (address : string)
| SendActionCall (req : SendActionRequest).

(** A computation logs its calls and returns or throws. *)
Definition M (A : Type) : Type := list Call * result A.

Definition ret {A} (a : A) : M A := ([], Ok a).
Definition throw {A} (e : Error) : M A := ([], Err e).
Definition lift {A} (r : result A) : M A := ([], r).

Definition bind {A B} (m : M A) (k : A -> M B) : M B :=
  match m with
  | (calls, Ok a) => let (calls', r) := k a in (calls ++ calls', r)
  | (calls, Err e) => (calls, Err e)
  end.

Notation "x <- m ;; k" := (bind m (fun x => k))
  (at level 61, m at next level, right associativity).

Definition bindR {A B} (r : result A) (k : A -> result B) : result B :=
  match r with
  | Ok a => k a
  | Err e => Err e
  end.

Notation "x <~ r ;; k" := (bindR r (fun x => k))
  (at level 61, r at next level, right associativity).

(** What lines 93-113 have read and computed before the first RPC call: the
    decoded array and its nine items, the recipient, the recovery value as a
    number, the recovered key and the last byte of the signature. *)
Record Translation : Type := mkTranslation {
  t_chainID : N;
  t_tx : list Input;
  t_tx0 : Buffer;
  t_tx1 : Buffer;
  t_tx2 : Buffer;
  t_tx3 : Buffer;
  t_tx4 : Buffer;
  t_tx5 : Buffer;
  t_tx6 : Buffer;
  t_tx7 : Buffer;
  t_tx8 : Buffer;
  t_to : string;
  t_vv : Z;
  t_publicKey : Buffer;
  t_vByte : Buffer
}.

Definition submitted (calls : list Call) : list SendActionRequest :=
  flat_map (fun c => match c with
                     | SendActionCall r => [r]
                     | GetAccountCall _ => []
                     end) calls.

Definition lookups (calls : list Call) : list string :=
  flat_map (fun c => match c with
                     | GetAccountCall a => [a]
                     | SendActionCall _ => []
                     end) calls.

(** [tx[i]] as a Buffer.  A missing item is [undefined]: reading [toString]
    or [length] from it throws, and [ecrecover] cannot succeed on an
    undefined [r] or [s] (its [setLength] throws on them or pads them to the
    scalar zero, which the curve refuses).  An item that is itself an array
    would be coerced to a string or passed on as it is, which is not
    modelled. *)
Definition field (tx : list Input) (i : nat) : result Buffer :=
  match nth_error tx i with
  | None => Err (TypeError "Cannot read property of undefined")
  | Some (Buf b) => Ok b
  | Some (Arr _) => Err (NotModelled "array item")
  end.

(** What line 95 throws when [rlp.decode] has returned a Buffer instead of
    an array: [tx[0]] is then [undefined] or a byte, a number whose
    [toString("hex")] has no valid radix. *)
Definition notAnArray (tx : Buffer) : Error :=
  match tx with
  | [] => TypeError "Cannot read property of undefined"
  | _ :: _ => RangeError "toString() radix must be between 2 and 36"
  end.

(** [toBuffer(n)] for the number [v.toNumber()]. *)
Definition numberToBuffer (n : option Z) : result Buffer :=
  match n with
  | Some z => if 0 <=? z then Ok (toBuffer z)
              else Err (NotModelled "toBuffer of a negative number")
  | None => Err (NotModelled "toBuffer of NaN")
  end.

(** [ecrecover] of ethereumjs-util, around the recovery of secp256k1. *)
Definition calculateSigRecovery (v : Z) (chainId : N) : Z :=
  if (chainId =? 0)%N then v - 27 else v - (2 * Z.of_N chainId + 35).

Definition isValidSigRecovery (recovery : Z) : bool :=
  (recovery =? 0) || (recovery =? 1).

Definition withTransfer (r : SendActionRequest) (t : Transfer)
  : SendActionRequest :=
  let a := action r in
  let c := core a in
  mkSendActionRequest
    (mkAction
       (mkActionCore (version c) (nonce c) (gasLimit c) (gasPrice c)
          (chainID c) (Some t) (execution c))
       (senderPubKey a) (signature a) (encoding a)).

Definition withExecution (r : SendActionRequest) (e : Execution)
  : SendActionRequest :=
  let a := action r in
  let c := core a in
  mkSendActionRequest
    (mkAction
       (mkActionCore (version c) (nonce c) (gasLimit c) (gasPrice c)
          (chainID c) (transfer c) (Some e))
       (senderPubKey a) (signature a) (encoding a)).

Section Iotx.

(** The hash and the curve are parameters of the model, and so is the
    address codec of [crypto/address]: [fromBytes(b).string()]. *)
Variable keccak256 : Buffer -> Buffer.
Variable ecdsaRecover : Buffer -> Z -> Buffer -> option Buffer.
Variable fromBytes : Buffer -> result string.
Variable client : RpcMethod.

Definition ecrecover (msgHash : Buffer) (v : Z) (r s : Buffer) (chainId : N)
  : result Buffer :=
  let signature := setLength r 32 ++ setLength s 32 in
  let recovery := calculateSigRecovery v chainId in
  if negb (isValidSigRecovery recovery)
  then Err (RecoveryError "Invalid signature v value")
  else
    match ecdsaRecover signature recovery msgHash with
    | Some senderPubKey => Ok senderPubKey
    | None => Err (RecoveryError "secp256k1 recovery failed")
    end.

Definition awaitGetAccount (address : string) : M GetAccountResponse :=
  ([GetAccountCall address], getAccount client address).

Definition awaitSendAction (req : SendActionRequest) : M SendActionResponse :=
  ([SendActionCall req], sendAction client req).

(** [const rawTx = [ ...tx.slice(0, 6), toBuffer(req.chainID), pad, pad ]] *)
Definition rawTx (tx : list Input) (chainID : N) : list Input :=
  let pad := unpadBuffer (toBuffer 0) in
  firstn 6 tx ++ [Buf (toBuffer (Z.of_N chainID)); Buf pad; Buf pad].

(** [v = v.minus(req.chainID * 2 + 8)] *)
Definition vNormalized (v : Buffer) (chainID : N) : BigNumber :=
  minus (ofHex v) (Z.of_N chainID * 2 + 8).

Definition classify (to : string) : M bool :=
  if String.eqb to "" then ret true
  else
    account <- awaitGetAccount to ;;
    match accountMeta account with
    | None => throw (ClassificationError to)
    | Some meta => ret (isContract meta)
    end.

Definition sendRawTransaction (req : RawTransactionRequest) : M string :=
  decoded <- lift (Rlp.decode (req_data req)) ;;
  match decoded with
  | Buf b => throw (notAnArray b)
  | Arr tx =>
      tx0 <- lift (field tx 0) ;;
      let nonce := ofHex tx0 in
      tx1 <- lift (field tx 1) ;;
      let gasPrice := ofHex tx1 in
      tx2 <- lift (field tx 2) ;;
      let gasLimit := ofHex tx2 in
      tx3 <- lift (field tx 3) ;;
      to <- lift (match tx3 with
                  | [] => Ok EmptyString
                  | _ :: _ => fromBytes tx3
                  end) ;;
      tx4 <- lift (field tx 4) ;;
      let value := ofHex tx4 in
      data <- lift (field tx 5) ;;
      tx6 <- lift (field tx 6) ;;
      let v := vNormalized tx6 (req_chainID req) in
      let raw := Rlp.encode (Arr (rawTx tx (req_chainID req))) in
      let hash := keccak256 raw in
      vv <- lift (bufferToInt tx6) ;;
      tx7 <- lift (field tx 7) ;;
      tx8 <- lift (field tx 8) ;;
      publicKey <- lift (ecrecover hash vv tx7 tx8 (req_chainID req)) ;;
      let compactPublicKey := toBuffer 4 ++ publicKey in
      vByte <- lift (numberToBuffer (toNumber v)) ;;
      let signature := setLength tx7 32 ++ setLength tx8 32 ++ vByte in
      isContract <- classify to ;;
      let sendActionReq :=
        mkSendActionRequest
          (mkAction
             (mkActionCore 0 (toString nonce) (toString gasLimit)
                (toString gasPrice) 0 None None)
             compactPublicKey signature 1) in
      let sendActionReq :=
        if negb isContract
        then withTransfer sendActionReq (mkTransfer (toString value) to data)
        else withExecution sendActionReq
               (mkExecution (toString value) to data) in
      response <- awaitSendAction sendActionReq ;;
      ret (actionHash response)
  end.

(** *** The same function in two steps

    [translate] is the part of [sendRawTransaction] before the first [await]
    (lines 93-113) and [envelope] the request of lines 126-155;
    [sendRawTransaction_translate] below shows that the function is their
    composition. *)

Definition translate (req : RawTransactionRequest) : result Translation :=
  decoded <~ Rlp.decode (req_data req) ;;
  match decoded with
  | Buf b => Err (notAnArray b)
  | Arr tx =>
      tx0 <~ field tx 0 ;;
      tx1 <~ field tx 1 ;;
      tx2 <~ field tx 2 ;;
      tx3 <~ field tx 3 ;;
      to <~ match tx3 with
            | [] => Ok EmptyString
            | _ :: _ => fromBytes tx3
            end ;;
      tx4 <~ field tx 4 ;;
      data <~ field tx 5 ;;
      tx6 <~ field tx 6 ;;
      let v := vNormalized tx6 (req_chainID req) in
      let raw := Rlp.encode (Arr (rawTx tx (req_chainID req))) in
      let hash := keccak256 raw in
      vv <~ bufferToInt tx6 ;;
      tx7 <~ field tx 7 ;;
      tx8 <~ field tx 8 ;;
      publicKey <~ ecrecover hash vv tx7 tx8 (req_chainID req) ;;
      vByte <~ numberToBuffer (toNumber v) ;;
      Ok (mkTranslation (req_chainID req) tx tx0 tx1 tx2 tx3 tx4 data tx6 tx7
            tx8 to vv publicKey vByte)
  end.

Definition t_v (t : Translation) : BigNumber :=
  vNormalized (t_tx6 t) (t_chainID t).

(** The value that [v.minus(req.chainID * 2 + 8)] leaves in a translation
    that has passed [ecrecover]. *)
Definition normalized (t : Translation) : Z :=
  beValue (t_tx6 t) - (Z.of_N (t_chainID t) * 2 + 8).

Definition t_raw (t : Translation) : Buffer :=
  Rlp.encode (Arr (rawTx (t_tx t) (t_chainID t))).

Definition envelope (t : Translation) (isContract : bool) : SendActionRequest :=
  let sendActionReq :=
    mkSendActionRequest
      (mkAction
         (mkActionCore 0 (toString (ofHex (t_tx0 t)))
            (toString (ofHex (t_tx2 t))) (toString (ofHex (t_tx1 t))) 0
            None None)
         (toBuffer 4 ++ t_publicKey t)
         (setLength (t_tx7 t) 32 ++ setLength (t_tx8 t) 32 ++ t_vByte t) 1) in
  if negb isContract
  then withTransfer sendActionReq
         (mkTransfer (toString (ofHex (t_tx4 t))) (t_to t) (t_tx5 t))
  else withExecution sendActionReq
         (mkExecution (toString (ofHex (t_tx4 t))) (t_to t) (t_tx5 t)).

(** What [translate] establishes about its result. *)
Record Translated (req : RawTransactionRequest) (t : Translation) : Prop := {
  tr_chainID : t_chainID t = req_chainID req;
  tr_decode : Rlp.decode (req_data req) = Ok (Arr (t_tx t));
  tr_tx0 : field (t_tx t) 0 = Ok (t_tx0 t);
  tr_tx1 : field (t_tx t) 1 = Ok (t_tx1 t);
  tr_tx2 : field (t_tx t) 2 = Ok (t_tx2 t);
  tr_tx3 : field (t_tx t) 3 = Ok (t_tx3 t);
  tr_tx4 : field (t_tx t) 4 = Ok (t_tx4 t);
  tr_tx5 : field (t_tx t) 5 = Ok (t_tx5 t);
  tr_tx6 : field (t_tx t) 6 = Ok (t_tx6 t);
  tr_tx7 : field (t_tx t) 7 = Ok (t_tx7 t);
  tr_tx8 : field (t_tx t) 8 = Ok (t_tx8 t);
  tr_to : match t_tx3 t with
          | [] => Ok EmptyString
          | _ :: _ => fromBytes (t_tx3 t)
          end = Ok (t_to t);
  tr_vv : bufferToInt (t_tx6 t) = Ok (t_vv t);
  tr_publicKey : ecrecover (keccak256 (t_raw t)) (t_vv t) (t_tx7 t) (t_tx8 t)
                   (t_chainID t) = Ok (t_publicKey t);
  tr_vByte : numberToBuffer (toNumber (t_v t)) = Ok (t_vByte t)
}.

Definition submit (t : Translation) : M string :=
  isContract <- classify (t_to t) ;;
  response <- awaitSendAction (envelope t isContract) ;;
  ret (actionHash response).

Definition hashOf (r : result SendActionResponse) : result string :=
  match r with
  | Ok response => Ok (actionHash response)
  | Err e => Err e
  end.

(** The four ways lines 115-157 can go. *)
Inductive Submission (t : Translation) : M string -> Prop :=
| SubmitCreation :
    t_to t = EmptyString ->
    Submission t
      ([SendActionCall (envelope t true)],
       hashOf (sendAction client (envelope t true)))
| LookupRejected (e : Error) :
    t_to t <> EmptyString ->
    getAccount client (t_to t) = Err e ->
    Submission t ([GetAccountCall (t_to t)], Err e)
| LookupWithoutMeta (account : GetAccountResponse) :
    t_to t <> EmptyString ->
    getAccount client (t_to t) = Ok account ->
    accountMeta account = None ->
    Submission t
      ([GetAccountCall (t_to t)], Err (ClassificationError (t_to t)))
| SubmitClassified (account : GetAccountResponse) (meta : AccountMeta) :
    t_to t <> EmptyString ->
    getAccount client (t_to t) = Ok account ->
    accountMeta account = Some meta ->
    Submission t
      ([GetAccountCall (t_to t); SendActionCall (envelope t (isContract meta))],
       hashOf (sendAction client (envelope t (isContract meta)))).

End Iotx.

End Antenna.

(** ** The specification's wording, where it is compared with the code *)

Module Reference.

Import Antenna.
Import Rlp(Input, Buf, Arr).

(** Section 4.2, step 2: the first six fields, then the target chain id
    "as an unsigned integer, minimally encoded" and two empty byte strings. *)
Definition referencePayload (f0 f1 f2 f3 f4 f5 : Buffer) (chainId : N) : Buffer :=
  Rlp.encode
    (Arr [Buf f0; Buf f1; Buf f2; Buf f3; Buf f4; Buf f5;
          Buf (beBytes (Z.of_N chainId)); Buf []; Buf []]).

(** Section 4.2, step 4: recovery "from (digest, v_normalized, tx.r, tx.s)". *)
Definition recoverFromNormalized
    (ecdsaRecover : Buffer -> Z -> Buffer -> option Buffer)
    (digest : Buffer) (vNormalized : Z) (r s : Buffer) : option Buffer :=
  ecdsaRecover (setLength r 32 ++ setLength s 32) vNormalized digest.

(** Section 3: a RawTransaction is a tuple of exactly nine byte strings. *)
Definition isRawTransaction (input : Buffer) : Prop :=
  exists f0 f1 f2 f3 f4 f5 f6 f7 f8,
    Rlp.decode input =
    Ok (Arr [Buf f0; Buf f1; Buf f2; Buf f3; Buf f4; Buf f5; Buf f6; Buf f7;
             Buf f8]).

(** Section 4.2, step 1: the normalized recovery indicator "must be a small
    non-negative integer (0 or 1 semantically)". *)
Definition inSpecRange (v : BigNum.BigNumber) : Prop :=
  v = BigNum.Num 0 \/ v = BigNum.Num 1.

End Reference.

(** ** Concrete transactions and stand-ins for the parameters *)

Module Examples.

Import Antenna.
Import Rlp(Input, Buf, Arr).

(** Stand-ins for the hash, the curve and the address codec.  The recovery
    accepts the recovery ids 0 and 1, as secp256k1 does, and no other. *)
Definition hashStub (b : Buffer) : Buffer := setLength (firstn 32 b) 32.

Definition recoverStub (sig : Buffer) (recovery : Z) (msgHash : Buffer)
  : option Buffer :=
  if isValidSigRecovery recovery then Some (repeat (byteOf recovery) 64)
  else None.

Definition addressStub (b : Buffer) : result string :=
  if Nat.eqb (length b) 20 then Ok "io1recipient"%string
  else Err (AddressError "invalid address length in bytes").

(** A node that answers every lookup with the given metadata and accepts
    every action. *)
Definition node (meta : option AccountMeta) : RpcMethod :=
  mkRpcMethod
    (fun _ => Ok (mkGetAccountResponse meta))
    (fun _ => Ok (mkSendActionResponse "hash")).

Definition plainAccount : option AccountMeta := Some (mkAccountMeta false).
Definition contractAccount : option AccountMeta := Some (mkAccountMeta true).

Definition oneToken : Buffer := [x0d; xe0; xb6; xb3; xa7; x64; x00; x00].
Definition recipient : Buffer := repeat x11 20.

(** A legacy transaction signed for chain [signedFor]: nonce 1, gas price 1,
    gas limit 21000, recovery id 0. *)
Definition legacyTx (to value : Buffer) (signedFor : N) : list Input :=
  [Buf [x01]; Buf [x01]; Buf [x52; x08]; Buf to; Buf value; Buf [];
   Buf (beBytes (2 * Z.of_N signedFor + 35)); Buf (repeat x01 32);
   Buf (repeat x02 32)].

Definition request (chainId : N) (tx : list Input) : RawTransactionRequest :=
  mkRawTransactionRequest chainId (Rlp.encode (Arr tx)).

Definition send (meta : option AccountMeta) (req : RawTransactionRequest)
  : M string :=
  sendRawTransaction hashStub recoverStub addressStub (node meta) req.

End Examples.

(** ** Buffers without leading zeros *)

Module Canonical.

(** A buffer whose first byte is not zero: the form [unpadBuffer] leaves. *)
Definition minimal (b : Buffer) : Prop :=
  match b with
  | [] => True
  | x :: _ => byteVal x <> 0
  end.

End Canonical.

(** ** Decimal numerals *)

Module Numeral.

Import Antenna.

(** [s] is the decimal numeral of [z]: digits only, and they read as [z]. *)
Definition readsAs (s : string) (z : Z) : Prop :=
  exists d : uint,
    NilZero.uint_of_string s = Some d /\ Z.of_N (N.of_uint d) = z.

(** The amount that a submitted action carries, in its transfer or in its
    execution. *)
Definition amountOf (r : SendActionRequest) : option string :=
  match transfer (core (action r)), execution (core (action r)) with
  | Some t, _ => Some (transfer_amount t)
  | None, Some e => Some (execution_amount e)
  | None, None => None
  end.

End Numeral.

(** ** Hexadecimal strings *)

Module Hex.

(** The digit that [toString("hex")] prints for a value below 16. *)
Definition hexDigit (n : Z) : ascii :=
  ascii_of_N (Z.to_N (if n <? 10 then 48 + n else 87 + n)).

(** The value of a hexadecimal digit, in either case. *)
Definition hexVal (c : ascii) : option Z :=
  let n := Z.of_N (N_of_ascii c) in
  if (48 <=? n) && (n <=? 57) then Some (n - 48)
  else if (97 <=? n) && (n <=? 102) then Some (n - 87)
  else if (65 <=? n) && (n <=? 70) then Some (n - 55)
  else None.

Definition isHexDigit (c : ascii) : bool :=
  match hexVal c with Some _ => true | None => false end.

(** [b.toString("hex")]: two lower-case digits for each byte. *)
Fixpoint toHex (b : Buffer) : string :=
  match b with
  | [] => EmptyString
  | x :: b' =>
      String (hexDigit (byteVal x / 16))
        (String (hexDigit (byteVal x mod 16)) (toHex b'))
  end.

(** [Buffer.from(s, "hex")]: one byte for each pair of digits, up to the
    first pair that is not one; a last single character is dropped. *)
Fixpoint fromHex (s : string) : Buffer :=
  match s with
  | String c1 (String c2 s') =>
      match hexVal c1, hexVal c2 with
      | Some h, Some l => byteOf (16 * h + l) :: fromHex s'
      | _, _ => []
      end
  | _ => []
  end.

(** [s.substring(2)] *)
Definition substring2 (s : string) : string :=
  match s with
  | String _ (String _ s') => s'
  | _ => EmptyString
  end.

Fixpoint allHex (s : string) : bool :=
  match s with
  | EmptyString => true
  | String c s' => isHexDigit c && allHex s'
  end.

(** [isHexString(s)] of ethereumjs-util: [/^0x[0-9A-Fa-f]*$/]. *)
Definition isHexString (s : string) : bool :=
  match s with
  | String "0" (String "x" s') => allHex s'
  | _ => false
  end.

(** [stripHexPrefix(s)]: without its leading "0x", when it has one. *)
Definition stripHexPrefix (s : string) : string :=
  match s with
  | String "0" (String "x" s') => s'
  | _ => s
  end.

(** [padToEven(s)] *)
Definition padToEven (s : string) : string :=
  if Nat.even (String.length s) then s else String "0" s.

(** [keccakFromHexString(a)]: asserts a hex string and hashes the bytes that
    [toBuffer(a)] reads from it. *)
Definition keccakFromHexString (keccak256 : Buffer -> Buffer) (a : string)
  : result Buffer :=
  if isHexString a
  then Ok (keccak256 (fromHex (padToEven (stripHexPrefix a))))
  else Err (TypeError "This method only supports 0x-prefixed hex strings").

End Hex.

(** ** Computations that log their calls *)

Module Effects.

Section Logged.
Variables E X : Type.

(** A computation returns a value or throws; [E] are the calls it logs and
    [X] the errors it throws. *)
Inductive outcome (A : Type) : Type :=
| Returned (a : A)
| Thrown (x : X).

Definition Logged (A : Type) : Type := (list E * outcome A)%type.

End Logged.

Arguments Returned {X A} a.
Arguments Thrown {X A} x.

Definition ret {E X A} (a : A) : Logged E X A := ([], Returned a).
Definition throw {E X A} (x : X) : Logged E X A := ([], Thrown x).

(** An awaited call: it is logged, and its answer is returned or thrown. *)
Definition await {E X A} (call : E) (answer : outcome X A) : Logged E X A :=
  ([call], answer).

Definition bind {E X A B} (m : Logged E X A) (k : A -> Logged E X B)
  : Logged E X B :=
  match m with
  | (calls, Returned a) => let (calls', r) := k a in (calls ++ calls', r)
  | (calls, Thrown x) => (calls, Thrown x)
  end.

Notation "x <<- m ;; k" := (bind m (fun x => k))
  (at level 61, m at next level, right associativity).

Definition ofResult {A} (r : result A) : outcome Error A :=
  match r with
  | Ok a => Returned a
  | Err e => Thrown e
  end.

Definition returned {X A} (r : outcome X A) : bool :=
  match r with Returned _ => true | Thrown _ => false end.

End Effects.

(** ** [estimateGas] *)

Module Gas.

Import Antenna BigNum Hex Effects.

(** [EstimateGasRequest]: four optional strings. *)
Record EstimateGasRequest : Type := mkEstimateGasRequest {
  eg_from : option string;
  eg_to : option string;
  eg_value : option string;
  eg_data : option string
}.

(** The payload of an estimate: a Buffer, or the empty string that stands
    for a request without data. *)
Inductive Data : Type :=
| DataBuffer (b : Buffer)
| DataEmptyString.

Record GasTransfer : Type := mkGasTransfer {
  gt_amount : string;
  gt_recipient : string;
  gt_payload : Data
}.

Record GasExecution : Type := mkGasExecution {
  ge_amount : string;
  ge_contract : string;
  ge_data : Data
}.

(** [estimateReq]; [transfer] and [execution] are attached after the object
    is built. *)
Record EstimateActionGasRequest : Type := mkEstimateActionGasRequest {
  callerAddress : string;
  est_transfer : option GasTransfer;
  est_execution : option GasExecution
}.

Record EstimateActionGasResponse : Type := mkEstimateActionGasResponse {
  gas : Z
}.

Inductive GasCall : Type :=
| GasGetAccount (address : string)
| GasEstimate (req : EstimateActionGasRequest).

Definition estimates (calls : list GasCall) : list EstimateActionGasRequest :=
  flat_map (fun c => match c with
                     | GasEstimate r => [r]
                     | GasGetAccount _ => []
                     end) calls.

Definition gasLookups (calls : list GasCall) : list string :=
  flat_map (fun c => match c with
                     | GasGetAccount a => [a]
                     | GasEstimate _ => []
                     end) calls.

(** A string that JavaScript takes for true: present and not empty. *)
Definition truthy (s : option string) : option string :=
  match s with
  | Some (String _ _ as s') => Some s'
  | _ => None
  end.

(** The address used when the request names no caller. *)
Definition defaultCaller : string :=
  "io1qqqqqqqqqqqqqqqqqqqqqqqqqqqqqqqqd39ym7".

Section EstimateGas.

(** The address codec and the decimal printing of a BigNumber read from a
    string are parameters; so are the two RPC methods. *)
Variable fromBytes : Buffer -> result string.
Variable bigNumberToString : string -> string.
Variable getAccount : string -> result GetAccountResponse.
Variable estimateActionGasConsumption :
  EstimateActionGasRequest -> result EstimateActionGasResponse.

Definition G (A : Type) : Type := Logged GasCall Error A.

(** [fromBytes(Buffer.from(s.substring(2), "hex")).string()] *)
Definition addressOfHex (s : string) : result string :=
  fromBytes (fromHex (substring2 s)).

(** [req.data ? Buffer.from(req.data.substring(2), "hex") : ""] *)
Definition dataOf (data : option string) : Data :=
  match truthy data with
  | Some s => DataBuffer (fromHex (substring2 s))
  | None => DataEmptyString
  end.

(** [new BigNumber(req.value!).toString()]: the BigNumber of [undefined] is
    NaN. *)
Definition transferAmount (value : option string) : string :=
  match value with
  | Some s => bigNumberToString s
  | None => "NaN"
  end.

(** [req.value ? new BigNumber(req.value).toString() : "0"] *)
Definition executionAmount (value : option string) : string :=
  match truthy value with
  | Some s => bigNumberToString s
  | None => "0"
  end.

Definition classifyGas (to : string) : G bool :=
  if String.eqb to "" then ret true
  else
    account <<- await (GasGetAccount to) (ofResult (getAccount to)) ;;
    match accountMeta account with
    | None => throw (ClassificationError to)
    | Some meta => ret (isContract meta)
    end.

(** Lines 161-163: the recipient, empty when the request names none. *)
Definition recipientOf (req : EstimateGasRequest) : result string :=
  match truthy (eg_to req) with
  | Some s => addressOfHex s
  | None => Ok EmptyString
  end.

(** Lines 164-167 *)
Definition callerOf (req : EstimateGasRequest) : result string :=
  match truthy (eg_from req) with
  | Some s => addressOfHex s
  | None => Ok defaultCaller
  end.

(** Lines 180-197: [estimateReq] with its transfer or its execution. *)
Definition estimateRequest (req : EstimateGasRequest) (from to : string)
    (isContract : bool) : EstimateActionGasRequest :=
  let estimateReq := mkEstimateActionGasRequest from None None in
  if negb isContract
  then mkEstimateActionGasRequest (callerAddress estimateReq)
         (Some (mkGasTransfer (transferAmount (eg_value req)) to
                  (dataOf (eg_data req))))
         (est_execution estimateReq)
  else mkEstimateActionGasRequest (callerAddress estimateReq)
         (est_transfer estimateReq)
         (Some (mkGasExecution (executionAmount (eg_value req)) to
                  (dataOf (eg_data req)))).

Definition estimateGas (req : EstimateGasRequest) : G Z :=
  to <<- ([], ofResult (recipientOf req)) ;;
  from <<- ([], ofResult (callerOf req)) ;;
  isContract <<- classifyGas to ;;
  let estimateReq := estimateRequest req from to isContract in
  response <<- await (GasEstimate estimateReq)
                (ofResult (estimateActionGasConsumption estimateReq)) ;;
  ret (gas response).

(** What the awaited estimate resolves to. *)
Definition gasOf (r : result EstimateActionGasResponse) : outcome Error Z :=
  match r with
  | Ok response => Returned (gas response)
  | Err e => Thrown e
  end.

(** The ways a run of [estimateGas] can go. *)
Inductive Estimation (req : EstimateGasRequest) : G Z -> Prop :=
| BadRecipient (e : Error) :
    recipientOf req = Err e ->
    Estimation req ([], Thrown e)
| BadCaller (to : string) (e : Error) :
    recipientOf req = Ok to ->
    callerOf req = Err e ->
    Estimation req ([], Thrown e)
| EstimateCreation (from : string) :
    recipientOf req = Ok EmptyString ->
    callerOf req = Ok from ->
    Estimation req
      ([GasEstimate (estimateRequest req from EmptyString true)],
       gasOf (estimateActionGasConsumption
                (estimateRequest req from EmptyString true)))
| GasLookupRejected (from to : string) (e : Error) :
    recipientOf req = Ok to ->
    callerOf req = Ok from ->
    to <> EmptyString ->
    getAccount to = Err e ->
    Estimation req ([GasGetAccount to], Thrown e)
| GasLookupWithoutMeta (from to : string) (account : GetAccountResponse) :
    recipientOf req = Ok to ->
    callerOf req = Ok from ->
    to <> EmptyString ->
    getAccount to = Ok account ->
    accountMeta account = None ->
    Estimation req ([GasGetAccount to], Thrown (ClassificationError to))
| EstimateClassified (from to : string) (account : GetAccountResponse)
    (meta : AccountMeta) :
    recipientOf req = Ok to ->
    callerOf req = Ok from ->
    to <> EmptyString ->
    getAccount to = Ok account ->
    accountMeta account = Some meta ->
    Estimation req
      ([GasGetAccount to;
        GasEstimate (estimateRequest req from to (isContract meta))],
       gasOf (estimateActionGasConsumption
                (estimateRequest req from to (isContract meta)))).

End EstimateGas.

End Gas.

(** ** The flows that sign with an account *)

Module Flows.

Import Effects.

(** What these functions throw: their own two errors, or what a call they
    await was rejected with. *)
Inductive FlowError : Type :=
| CannotFindAccount (address : string)    (* [`cannot find account: ${address}`] *)
| ParseAbiError                           (* ["parse abi to ABIDefinition error"] *)
| Rejected (e : Error).

Definition awaited {A} (r : result A) : outcome FlowError A :=
  match r with
  | Ok a => Returned a
  | Err e => Thrown (Rejected e)
  end.

Section Iotx.

(** The classes and types of the modules outside [iotx.ts] are parameters:
    accounts, ABI definitions, the arguments of a contract method, and the
    values that the functions pass on untouched. *)
Context {Account ABIDefinition Args Quantity Bytes Execution Result : Type}.

(** [SignerPlugin]: its [getAccount] is optional. *)
Record SignerPlugin : Type := mkSignerPlugin {
  signer_getAccount : option (string -> result (option Account))
}.

Record TransferRequest : Type := mkTransferRequest {
  tr_from : string;
  tr_to : string;
  tr_value : Quantity;
  tr_payload : option string;
  tr_gasLimit : Quantity;
  tr_gasPrice : Quantity
}.

(** The object that [sendTransfer] hands to [TransferMethod]. *)
Record TransferFields : Type := mkTransferFields {
  tf_gasLimit : Quantity;
  tf_gasPrice : Quantity;
  tf_amount : Quantity;
  tf_recipient : string;
  tf_payload : string
}.

Record ClaimFromRewardingFundRequset : Type := mkClaimRequest {
  cl_from : string;
  cl_amount : Quantity;
  cl_data : Bytes;
  cl_gasLimit : Quantity;
  cl_gasPrice : Quantity
}.

Record ClaimFields : Type := mkClaimFields {
  cf_gasLimit : Quantity;
  cf_gasPrice : Quantity;
  cf_amount : Quantity;
  cf_data : Bytes
}.

(** [req.abi]: a string to parse, or a definition. *)
Inductive AbiInput : Type :=
| AbiString (s : string)
| AbiParsed (abi : ABIDefinition).

Record ContractRequest : Type := mkContractRequest {
  cr_from : string;
  cr_abi : AbiInput;
  cr_data : Bytes;
  cr_amount : Quantity;
  cr_gasLimit : Quantity;
  cr_gasPrice : Quantity
}.

Record ExecuteContractRequest : Type := mkExecuteContractRequest {
  ec_from : string;
  ec_abi : AbiInput;
  ec_contractAddress : string;
  ec_method : string;
  ec_amount : Quantity;
  ec_gasLimit : Quantity;
  ec_gasPrice : Quantity
}.

(** The options object that [executeContract] appends to the arguments. *)
Record MethodOptions : Type := mkMethodOptions {
  mo_account : Account;
  mo_amount : Quantity;
  mo_gasLimit : Quantity;
  mo_gasPrice : Quantity
}.

Record ReadContractRequest : Type := mkReadContractRequest {
  rc_execution : Execution;
  rc_callerAddress : string
}.

(** The calls that the functions await, in the order they are made. *)
Inductive FlowCall : Type :=
| SignerGetAccount (address : string)
| ExecuteTransfer (sender : Account) (fields : TransferFields)
| ExecuteClaim (sender : Account) (fields : ClaimFields)
| Deploy (abi : ABIDefinition) (data : Bytes) (sender : Account) (args : Args)
    (amount gasLimit gasPrice : Quantity)
| CallMethod (abi : ABIDefinition) (contractAddress method : string)
    (args : Args) (options : MethodOptions)
| ReadContract (req : ReadContractRequest).

Definition isSignerGetAccount (c : FlowCall) : bool :=
  match c with SignerGetAccount _ => true | _ => false end.

(** The account that a call signs with. *)
Definition senderOf (c : FlowCall) : option Account :=
  match c with
  | ExecuteTransfer sender _ => Some sender
  | ExecuteClaim sender _ => Some sender
  | Deploy _ _ sender _ _ _ _ => Some sender
  | CallMethod _ _ _ _ options => Some (mo_account options)
  | SignerGetAccount _ => None
  | ReadContract _ => None
  end.

(** The instance: its signer, its local accounts, and what the collaborators
    answer. *)
Variable signer : option SignerPlugin.
Variable accounts_getAccount : string -> option Account.
Variable JSON_parse : string -> option ABIDefinition.
Variable transferExecute : Account -> TransferFields -> result string.
Variable claimExecute : Account -> ClaimFields -> result string.
Variable contractDeploy :
  ABIDefinition -> Bytes -> Account -> Args -> Quantity -> Quantity ->
  Quantity -> result string.
Variable contractMethod :
  ABIDefinition -> string -> string -> Args -> MethodOptions -> result string.
Variable pureEncodeMethod :
  ABIDefinition -> string -> string -> string -> Args -> result Execution.
Variable readContract : ReadContractRequest -> result Bytes.
Variable decodeMethodResult :
  ABIDefinition -> string -> string -> Bytes -> result Result.

Definition F (A : Type) : Type := Logged FlowCall FlowError A.

Definition tryGetAccount (address : string) : F Account :=
  sender <<- match signer with
             | Some s =>
                 match signer_getAccount s with
                 | Some getAccount =>
                     await (SignerGetAccount address)
                       (awaited (getAccount address))
                 | None => ret (accounts_getAccount address)
                 end
             | None => ret (accounts_getAccount address)
             end ;;
  match sender with
  | None => throw (CannotFindAccount address)
  | Some account => ret account
  end.

(** [req.payload || ""] *)
Definition payloadOf (payload : option string) : string :=
  match payload with
  | Some p => p
  | None => EmptyString
  end.

Definition sendTransfer (req : TransferRequest) : F string :=
  sender <<- tryGetAccount (tr_from req) ;;
  let payload := payloadOf (tr_payload req) in
  let fields :=
    mkTransferFields (tr_gasLimit req) (tr_gasPrice req) (tr_value req)
      (tr_to req) payload in
  await (ExecuteTransfer sender fields) (awaited (transferExecute sender fields)).

(** [if (typeof req.abi === "string") { try { req.abi = JSON.parse(req.abi) }
    catch (e) { throw new Error("parse abi to ABIDefinition error") } }] *)
Definition parseAbi (abi : AbiInput) : F ABIDefinition :=
  match abi with
  | AbiParsed definition => ret definition
  | AbiString s =>
      match JSON_parse s with
      | Some definition => ret definition
      | None => throw ParseAbiError
      end
  end.

Definition deployContract (req : ContractRequest) (args : Args) : F string :=
  abi <<- parseAbi (cr_abi req) ;;
  sender <<- tryGetAccount (cr_from req) ;;
  await (Deploy abi (cr_data req) sender args (cr_amount req) (cr_gasLimit req)
           (cr_gasPrice req))
    (awaited (contractDeploy abi (cr_data req) sender args (cr_amount req)
                (cr_gasLimit req) (cr_gasPrice req))).

Definition executeContract (req : ExecuteContractRequest) (args : Args)
  : F string :=
  abi <<- parseAbi (ec_abi req) ;;
  sender <<- tryGetAccount (ec_from req) ;;
  let options :=
    mkMethodOptions sender (ec_amount req) (ec_gasLimit req) (ec_gasPrice req) in
  await (CallMethod abi (ec_contractAddress req) (ec_method req) args options)
    (awaited (contractMethod abi (ec_contractAddress req) (ec_method req) args
                options)).

Definition readContractByMethod (req : ExecuteContractRequest) (args : Args)
  : F Result :=
  abi <<- parseAbi (ec_abi req) ;;
  execution <<- ([], awaited (pureEncodeMethod abi (ec_contractAddress req) "0"
                                (ec_method req) args)) ;;
  let request := mkReadContractRequest execution (ec_from req) in
  data <<- await (ReadContract request) (awaited (readContract request)) ;;
  ([], awaited (decodeMethodResult abi (ec_contractAddress req) (ec_method req)
                  data)).

Definition claimFromRewardingFund (req : ClaimFromRewardingFundRequset)
  : F string :=
  sender <<- tryGetAccount (cl_from req) ;;
  let fields :=
    mkClaimFields (cl_gasLimit req) (cl_gasPrice req) (cl_amount req)
      (cl_data req) in
  await (ExecuteClaim sender fields) (awaited (claimExecute sender fields)).

End Iotx.

End Flows.


(** ** Concrete requests for [estimateGas] and the signing flows *)

Module Scenes.

Import Antenna Hex Effects Gas Flows Examples.
#[local] Open Scope string_scope.

(** A stand-in for the printing of a BigNumber read from a string: decimal
    strings print as themselves. *)
Definition printStub (s : string) : string := s.

(** A node whose estimate is always 10000. *)
Definition estimator (req : EstimateActionGasRequest)
  : result EstimateActionGasResponse :=
  Ok (mkEstimateActionGasResponse 10000).

Definition estimate (meta : option AccountMeta) (req : EstimateGasRequest)
  : G Z :=
  estimateGas addressStub printStub (getAccount (node meta)) estimator req.

(** One token to [recipient], with empty data and no caller. *)
Definition transferEstimate : EstimateGasRequest :=
  mkEstimateGasRequest None (Some ("0x" ++ toHex recipient)%string)
    (Some "1000000000000000000"%string) (Some "0x"%string).

(** The same request without a value. *)
Definition valuelessEstimate : EstimateGasRequest :=
  mkEstimateGasRequest None (Some ("0x" ++ toHex recipient)%string) None None.

(** 1000 tokens: 10^21. *)
Definition thousandTokens : Buffer :=
  [x36; x35; xc9; xad; xc5; xde; xa0; x00; x00].

(** In the flows below accounts, ABI definitions, quantities and data are
    strings, and the arguments of a method a list of strings. *)
Definition Flow (A : Type) : Type :=
  Logged (@FlowCall string string (list string) string string string)
    FlowError A.

(** A signer that knows one address, and local accounts that hold
    another. *)
Definition remoteSigner : @SignerPlugin string :=
  mkSignerPlugin
    (Some (fun address =>
             Ok (if String.eqb address "io1remote"
                 then Some "remote account"%string else None))).

Definition localAccounts (address : string) : option string :=
  if String.eqb address "io1local" then Some "local account"%string else None.

Definition noAccounts (address : string) : option string := None.

(** A parser that accepts the empty ABI only. *)
Definition parseStub (s : string) : option string :=
  if String.eqb s "[]" then Some "[]"%string else None.

Definition executed {A B} (a : A) (b : B) : result string :=
  Ok "hash"%string.

Definition deployed (abi data sender : string) (args : list string)
    (amount gasLimit gasPrice : string) : result string :=
  Ok "hash"%string.

Definition called (abi contractAddress method : string) (args : list string)
    (options : @MethodOptions string string) : result string :=
  Ok "hash"%string.

Definition transferOf (from : string) : @TransferRequest string :=
  mkTransferRequest from "io1recipient" "1" None "100000" "1".

Definition deploymentOf (from abi : string) : @ContractRequest string string string :=
  mkContractRequest from (AbiString abi) "0x6080" "0" "100000" "1".

End Scenes.
(** * Facts about Buffers *)

Module BytesFacts.

Lemma byteVal_range (b : byte) : 0 <= byteVal b < 256.
Proof.
  unfold byteVal. pose proof (Byte.to_N_bounded b). lia.
Qed.

Lemma byteVal_byteOf (z : Z) : 0 <= z < 256 -> byteVal (byteOf z) = z.
Proof.
  intros Hz. unfold byteVal, byteOf.
  destruct (Byte.of_N (Z.to_N z)) as [b|] eqn:E.
  - apply Byte.to_of_N in E. rewrite E. lia.
  - apply Byte.of_N_None_iff in E. lia.
Qed.

Lemma byteOf_byteVal (b : byte) : byteOf (byteVal b) = b.
Proof.
  unfold byteVal, byteOf. rewrite N2Z.id, Byte.of_to_N. reflexivity.
Qed.

Lemma len_app (a b : Buffer) : len (a ++ b) = len a + len b.
Proof. unfold len. rewrite length_app. lia. Qed.

Lemma len_nonneg (a : Buffer) : 0 <= len a.
Proof. unfold len. lia. Qed.

Lemma beValue_from (b : Buffer) (acc : Z) :
  fold_left beStep b acc = acc * 256 ^ len b + beValue b.
Proof.
  unfold beValue. fold beStep. revert acc.
  induction b as [|x b IH]; intros acc; cbn [fold_left].
  - change (len []) with 0. lia.
  - rewrite IH. rewrite (IH (beStep 0 x)).
    replace (len (x :: b)) with (len b + 1) by (unfold len; simpl length; lia).
    rewrite Z.pow_add_r by (pose proof (len_nonneg b); lia).
    unfold beStep. lia.
Qed.

Lemma beValue_cons (x : byte) (b : Buffer) :
  beValue (x :: b) = byteVal x * 256 ^ len b + beValue b.
Proof.
  unfold beValue at 1. fold beStep. simpl. rewrite beValue_from.
  unfold beStep. lia.
Qed.

Lemma beValue_nonneg (b : Buffer) : 0 <= beValue b.
Proof.
  induction b as [|x b IH].
  - reflexivity.
  - rewrite beValue_cons. pose proof (byteVal_range x).
    pose proof (len_nonneg b).
    assert (0 <= 256 ^ len b) by (apply Z.pow_nonneg; lia). nia.
Qed.

Lemma beBytesAux_value (fuel : nat) : forall n acc,
  0 <= n < 256 ^ Z.of_nat fuel ->
  fold_left beStep (beBytesAux fuel n acc) 0 = fold_left beStep acc n.
Proof.
  induction fuel as [|fuel IH]; intros n acc Hn.
  - simpl in *. replace n with 0 by lia. reflexivity.
  - simpl beBytesAux. destruct (n <=? 0) eqn:E.
    + apply Z.leb_le in E. replace n with 0 by lia. reflexivity.
    + apply Z.leb_gt in E. rewrite IH.
      * simpl. unfold beStep at 2.
        rewrite byteVal_byteOf by (apply Z.mod_pos_bound; lia).
        f_equal. pose proof (Z.div_mod n 256). lia.
      * rewrite Nat2Z.inj_succ, Z.pow_succ_r in Hn by lia.
        split; [apply Z.div_pos; lia|].
        apply Z.div_lt_upper_bound; lia.
Qed.

Lemma fuel_enough (n : Z) : 0 <= n -> n < 256 ^ Z.of_nat (S (Z.to_nat (Z.log2 n))).
Proof.
  intros Hn. destruct (Z.eq_dec n 0) as [->|Hz].
  - reflexivity.
  - pose proof (Z.log2_spec n ltac:(lia)) as [_ Hu].
    pose proof (Z.log2_nonneg n).
    rewrite Nat2Z.inj_succ, Z2Nat.id by lia.
    eapply Z.lt_le_trans; [exact Hu|].
    change 256 with (2 ^ 8). rewrite <- Z.pow_mul_r by lia.
    apply Z.pow_le_mono_r; lia.
Qed.

Lemma beValue_beBytes (n : Z) : 0 <= n -> beValue (beBytes n) = n.
Proof.
  intros Hn. unfold beValue, beBytes. fold beStep.
  rewrite beBytesAux_value by (split; [lia | apply fuel_enough; lia]).
  reflexivity.
Qed.

Lemma beBytesAux_head (fuel : nat) : forall n acc,
  0 < n < 256 ^ Z.of_nat fuel ->
  exists x rest, beBytesAux fuel n acc = x :: rest /\ byteVal x <> 0.
Proof.
  induction fuel as [|fuel IH]; intros n acc Hn.
  - simpl in Hn. lia.
  - simpl beBytesAux. destruct (n <=? 0) eqn:E; [apply Z.leb_le in E; lia|].
    rewrite Nat2Z.inj_succ, Z.pow_succ_r in Hn by lia.
    destruct (Z.eq_dec (n / 256) 0) as [Hq|Hq].
    + rewrite Hq. exists (byteOf (n mod 256)), acc. split.
      * destruct fuel; reflexivity.
      * rewrite byteVal_byteOf by (apply Z.mod_pos_bound; lia).
        pose proof (Z.div_mod n 256). lia.
    + apply IH. split.
      * pose proof (Z.div_pos n 256). lia.
      * apply Z.div_lt_upper_bound; lia.
Qed.

Lemma beBytes_head (n : Z) : 0 < n ->
  exists x rest, beBytes n = x :: rest /\ byteVal x <> 0.
Proof.
  intros Hn. apply beBytesAux_head. split; [lia | apply fuel_enough; lia].
Qed.

Lemma beBytesAux_length (fuel : nat) : forall k n acc,
  0 <= k -> 0 <= n < 256 ^ k ->
  len (beBytesAux fuel n acc) <= k + len acc.
Proof.
  induction fuel as [|fuel IH]; intros k n acc Hk Hn; simpl.
  - lia.
  - destruct (n <=? 0) eqn:E; [lia|]. apply Z.leb_gt in E.
    assert (0 < k) by (destruct (Z.eq_dec k 0) as [->|]; [simpl in Hn|]; lia).
    specialize (IH (k - 1) (n / 256) (byteOf (n mod 256) :: acc)).
    replace (len (byteOf (n mod 256) :: acc)) with (len acc + 1) in IH
      by (unfold len; simpl length; lia).
    assert (n / 256 < 256 ^ (k - 1)).
    { apply Z.div_lt_upper_bound; [lia|].
      rewrite <- Z.pow_succ_r by lia. replace (Z.succ (k - 1)) with k by lia. lia. }
    pose proof (Z.div_pos n 256).
    lia.
Qed.

Lemma beBytes_length (n k : Z) : 0 <= k -> 0 <= n < 256 ^ k -> len (beBytes n) <= k.
Proof.
  intros Hk Hn. pose proof (beBytesAux_length (S (Z.to_nat (Z.log2 n))) k n [] Hk Hn).
  change (len []) with 0 in H. unfold beBytes. lia.
Qed.

End BytesFacts.

(** * The rlp package: decoding inverts encoding *)

Module RlpFacts.
Import Rlp BytesFacts.

Lemma to_nat_len (b : Buffer) : Z.to_nat (len b) = length b.
Proof. unfold len. lia. Qed.

Lemma slice_mid (p m r : Buffer) (s e : Z) :
  s = len p -> e = len p + len m -> slice (p ++ m ++ r) s e = m.
Proof.
  intros -> ->. unfold slice.
  replace (len p + len m - len p) with (len m) by lia.
  rewrite !to_nat_len.
  rewrite skipn_app, Nat.sub_diag, skipn_all. simpl.
  rewrite firstn_app, Nat.sub_diag, firstn_all. simpl. apply app_nil_r.
Qed.

Lemma sliceFrom_app (p r : Buffer) (s : Z) :
  s = len p -> sliceFrom (p ++ r) s = r.
Proof.
  intros ->. unfold sliceFrom. rewrite to_nat_len.
  rewrite skipn_app, Nat.sub_diag, skipn_all. reflexivity.
Qed.

Lemma encodeLength_short (n offset : Z) :
  n < 56 -> encodeLength n offset = [byteOf (n + offset)].
Proof. intros H. unfold encodeLength. apply Z.ltb_lt in H. rewrite H. reflexivity. Qed.

Lemma encodeLength_long (n offset : Z) :
  56 <= n -> encodeLength n offset = byteOf (offset + 55 + len (beBytes n)) :: beBytes n.
Proof.
  intros H. unfold encodeLength. destruct (n <? 56) eqn:E; [apply Z.ltb_lt in E; lia|].
  reflexivity.
Qed.

Lemma encodeLength_nonempty (n offset : Z) : 1 <= len (encodeLength n offset).
Proof.
  unfold encodeLength. destruct (n <? 56); unfold len; simpl length; lia.
Qed.

Lemma encode_nonempty (input : Input) : 1 <= len (encode input).
Proof.
  destruct input as [b|items]; simpl.
  - destruct b as [|x [|y b]].
    + rewrite len_app. pose proof (encodeLength_nonempty (len []) 128).
      pose proof (len_nonneg []). lia.
    + destruct (byteVal x <? 128).
      * unfold len; simpl; lia.
      * rewrite len_app. pose proof (encodeLength_nonempty (len [x]) 128).
        pose proof (len_nonneg [x]). lia.
    + rewrite len_app. pose proof (encodeLength_nonempty (len (x :: y :: b)) 128).
      pose proof (len_nonneg (x :: y :: b)). lia.
  - rewrite len_app.
    pose proof (encodeLength_nonempty (len (concat (map encode items))) 192).
    pose proof (len_nonneg (concat (map encode items))). lia.
Qed.

Lemma len_long_header (n : Z) :
  56 <= n < 2 ^ 64 -> 1 <= len (beBytes n) <= 8.
Proof.
  intros Hn. split.
  - destruct (beBytes_head n ltac:(lia)) as (x & rest & E & _). rewrite E.
    unfold len; simpl length; lia.
  - apply beBytes_length; [lia|]. change (256 ^ 8) with (2 ^ 64). lia.
Qed.


Lemma len_cons (x : byte) (b : Buffer) : len (x :: b) = 1 + len b.
Proof. unfold len. simpl length. lia. Qed.

Ltac lens :=
  repeat (rewrite len_app in * || rewrite len_cons in * );
  change (len []) with 0 in *.

Ltac len_lia := lens; unfold len in *; lia.

Lemma slice_head (x : byte) (m r : Buffer) (e : Z) :
  e = 1 + len m -> slice (x :: m ++ r) 1 e = m.
Proof.
  intros ->. apply (slice_mid [x] m r); len_lia.
Qed.

Lemma slice_body (x : byte) (h m r : Buffer) (s e : Z) :
  s = 1 + len h -> e = 1 + len h + len m ->
  slice (x :: (h ++ m) ++ r) s e = m.
Proof.
  intros -> ->. rewrite <- app_assoc.
  apply (slice_mid (x :: h) m r); len_lia.
Qed.

Lemma sliceFrom_tail (x : byte) (m r : Buffer) (s : Z) :
  s = 1 + len m -> sliceFrom (x :: m ++ r) s = r.
Proof.
  intros ->. apply (sliceFrom_app (x :: m) r); len_lia.
Qed.

Lemma encode_Buf_cases (b : Buffer) :
  (exists x, b = [x] /\ byteVal x < 128 /\ encode (Buf b) = b) \/
  ((forall x, b = [x] -> 128 <= byteVal x) /\
   encode (Buf b) = encodeLength (len b) 128 ++ b).
Proof.
  destruct b as [|x [|y b]].
  - right. split; [discriminate | reflexivity].
  - simpl. destruct (byteVal x <? 128) eqn:E.
    + left. exists x. apply Z.ltb_lt in E. auto.
    + right. apply Z.ltb_ge in E. split; [|reflexivity].
      intros x' [= <-]. exact E.
  - right. split; [discriminate | reflexivity].
Qed.

Lemma safeParseInt_header (n : Z) : 0 < n -> safeParseInt (beBytes n) = Ok n.
Proof.
  intros Hn. destruct (beBytes_head n Hn) as (x & t & Ex & Hx).
  unfold safeParseInt. rewrite Ex.
  replace (byteVal x =? 0) with false by (symmetry; apply Z.eqb_neq; exact Hx).
  rewrite <- Ex. rewrite beValue_beBytes by lia. reflexivity.
Qed.

Ltac decide_test t b :=
  replace t with b
    by (symmetry;
        first [ apply Z.leb_le; lia | apply Z.leb_gt; lia
              | apply Z.ltb_lt; lia | apply Z.ltb_ge; lia
              | apply Z.eqb_eq; lia | apply Z.eqb_neq; lia ]).

Lemma roundTrips_Buf (b : Buffer) : roundTrips (Buf b).
Proof.
  intros Hsize fuel rest Hfuel.
  destruct fuel as [|fuel]; [simpl in Hfuel; lia|].
  pose proof (len_nonneg b) as Hb0. pose proof (len_nonneg rest) as Hr0.
  destruct (encode_Buf_cases b) as [(x & -> & Hx & E)|[Hb E]]; rewrite E in *.
  - cbn [_decode app].
    decide_test (byteVal x <=? 127) true.
    reflexivity.
  - destruct (Z_lt_le_dec (len b) 56) as [Hs|Hl].
    + rewrite encodeLength_short by exact Hs.
      cbn [_decode app].
      rewrite byteVal_byteOf by lia.
      decide_test (len b + 128 <=? 127) false.
      decide_test (len b + 128 <=? 183) true.
      cbv zeta.
      assert (Hdata : (if len b + 128 =? 128 then []
                       else slice (byteOf (len b + 128) :: b ++ rest) 1
                              (len b + 128 - 127)) = b).
      { destruct (len b + 128 =? 128) eqn:E0.
        - apply Z.eqb_eq in E0. destruct b; [reflexivity|]. len_lia.
        - apply slice_head. lia. }
      rewrite Hdata.
      assert (Hchk : (len b + 128 - 127 =? 2) &&
                     match b with x :: _ => byteVal x <? 128 | [] => false end
                     = false).
      { destruct b as [|x [|y b']]; [apply andb_false_r| |].
        - specialize (Hb x eq_refl).
          decide_test (byteVal x <? 128) false.
          apply andb_false_r.
        - lens. pose proof (len_nonneg b').
          decide_test (1 + (1 + len b') + 128 - 127 =? 2) false. reflexivity. }
      rewrite Hchk. f_equal. f_equal.
      apply sliceFrom_tail. lia.
    + rewrite encodeLength_long in * by exact Hl.
      assert (Hb64 : len b < 2 ^ 64) by len_lia.
      pose proof (len_long_header (len b) ltac:(lia)) as Hh.
      pose proof (safeParseInt_header (len b) ltac:(lia)) as Hp.
      set (hdr := beBytes (len b)) in *.
      cbn [_decode app].
      rewrite byteVal_byteOf by lia.
      decide_test (128 + 55 + len hdr <=? 127) false.
      decide_test (128 + 55 + len hdr <=? 183) false.
      decide_test (128 + 55 + len hdr <=? 191) true.
      cbv zeta.
      set (fb := byteOf (128 + 55 + len hdr)).
      assert (Hin : len (fb :: (hdr ++ b) ++ rest) = 1 + len hdr + len b + len rest)
        by len_lia.
      decide_test (len (fb :: (hdr ++ b) ++ rest) - 1 <? 128 + 55 + len hdr - 182) false.
      rewrite <- (app_assoc hdr b rest) at 1.
      rewrite (slice_head fb hdr (b ++ rest)) by lia.
      rewrite Hp.
      decide_test (len b <=? 55) false.
      rewrite (slice_body fb hdr b rest) by lia.
      rewrite Z.ltb_irrefl.
      f_equal. f_equal. apply sliceFrom_tail. len_lia.
Qed.


Lemma decodeItems_encode (dec : Buffer -> result Decoded) (items : list Input) :
  Forall (fun i => forall rest, dec (encode i ++ rest) = Ok (mkDecoded i rest))
    items ->
  forall n, (length (concat (map encode items)) <= n)%nat ->
    decodeItems dec n (concat (map encode items)) = Ok items.
Proof.
  induction 1 as [|i items Hi _ IH]; intros n Hn.
  - destruct n; reflexivity.
  - cbn [map concat] in *.
    pose proof (encode_nonempty i) as Hne.
    destruct (encode i) as [|x e] eqn:E; [lens; lia|].
    rewrite <- E in *. clear E.
    rewrite length_app in Hn.
    destruct n as [|n]; [unfold len in Hne; lia|].
    destruct (encode i ++ concat (map encode items)) as [|y t] eqn:E.
    { apply app_eq_nil in E as [E _]. rewrite E in Hne. lens. lia. }
    rewrite <- E. clear E.
    cbn [decodeItems].
    destruct (encode i ++ concat (map encode items)) as [|y' t'] eqn:E'.
    { apply app_eq_nil in E' as [E' _]. rewrite E' in Hne. lens. lia. }
    rewrite <- E'. rewrite Hi. cbn [remainder data].
    rewrite IH by (unfold len in Hne; lia). reflexivity.
Qed.

Lemma encode_Arr (items : list Input) :
  encode (Arr items) =
  encodeLength (len (concat (map encode items))) 192 ++ concat (map encode items).
Proof. reflexivity. Qed.

Lemma len_concat_In (items : list Input) (i : Input) :
  In i items -> len (encode i) <= len (concat (map encode items)).
Proof.
  induction items as [|j items IH]; intros Hin; [contradiction|].
  cbn [map concat]. rewrite len_app.
  pose proof (len_nonneg (encode j)).
  pose proof (len_nonneg (concat (map encode items))).
  destruct Hin as [->|Hin]; [lia|]. specialize (IH Hin). lia.
Qed.

Lemma roundTrips_Arr (items : list Input) :
  Forall roundTrips items -> roundTrips (Arr items).
Proof.
  intros Hitems Hsize fuel rest Hfuel.
  destruct fuel as [|fuel]; [simpl in Hfuel; lia|].
  rewrite encode_Arr in *.
  set (buf := concat (map encode items)) in *.
  pose proof (len_nonneg buf) as Hb0. pose proof (len_nonneg rest) as Hr0.
  assert (Hdec : decodeItems (_decode fuel) (length buf) buf = Ok items).
  { apply decodeItems_encode; [|apply Nat.le_refl].
    rewrite Forall_forall in *. intros i Hi rest'.
    apply Hitems; [exact Hi| |].
    - pose proof (len_concat_In items i Hi). fold buf in H.
      pose proof (encodeLength_nonempty (len buf) 192). lens. lia.
    - cbn [nesting] in Hfuel.
      assert (Hm : (list_max (map nesting items) <= fuel)%nat) by lia.
      rewrite list_max_le, Forall_forall in Hm.
      apply Hm. apply in_map. exact Hi. }
  destruct (Z_lt_le_dec (len buf) 56) as [Hs|Hl].
  - rewrite encodeLength_short by exact Hs.
    cbn [_decode app].
    rewrite byteVal_byteOf by lia.
    decide_test (len buf + 192 <=? 127) false.
    decide_test (len buf + 192 <=? 183) false.
    decide_test (len buf + 192 <=? 191) false.
    decide_test (len buf + 192 <=? 247) true.
    cbv zeta.
    rewrite slice_head by lia.
    rewrite Hdec. f_equal. f_equal. apply sliceFrom_tail. lia.
  - rewrite encodeLength_long in * by exact Hl.
    assert (Hb64 : len buf < 2 ^ 64) by len_lia.
    pose proof (len_long_header (len buf) ltac:(lia)) as Hh.
    pose proof (safeParseInt_header (len buf) ltac:(lia)) as Hp.
    set (hdr := beBytes (len buf)) in *.
    cbn [_decode app].
    rewrite byteVal_byteOf by lia.
    decide_test (192 + 55 + len hdr <=? 127) false.
    decide_test (192 + 55 + len hdr <=? 183) false.
    decide_test (192 + 55 + len hdr <=? 191) false.
    decide_test (192 + 55 + len hdr <=? 247) false.
    cbv zeta.
    set (fb := byteOf (192 + 55 + len hdr)).
    assert (Hin : len (fb :: (hdr ++ buf) ++ rest)
                  = 1 + len hdr + len buf + len rest) by len_lia.
    rewrite <- (app_assoc hdr buf rest) at 1.
    rewrite (slice_head fb hdr (buf ++ rest)) by lia.
    destruct hdr as [|h0 hdr'] eqn:Ehdr; [lens; lia|].
    rewrite <- Ehdr in *. rewrite Hp.
    decide_test (len (fb :: (hdr ++ buf) ++ rest)
                 <? 192 + 55 + len hdr - 246 + len buf) false.
    rewrite (slice_body fb hdr buf rest) by lia.
    destruct buf as [|b0 buf'] eqn:Ebuf; [lens; lia|].
    rewrite <- Ebuf in *. rewrite Hdec.
    f_equal. f_equal. apply sliceFrom_tail. len_lia.
Qed.

Lemma roundTrips_all (input : Input) : roundTrips input.
Proof.
  induction input using Input_nested_ind.
  - apply roundTrips_Buf.
  - apply roundTrips_Arr. assumption.
Qed.

Lemma nesting_le_length (input : Input) :
  (nesting input <= length (encode input))%nat.
Proof.
  induction input as [b|items IH] using Input_nested_ind.
  - pose proof (encode_nonempty (Buf b)). unfold len in H. cbn [nesting]. lia.
  - rewrite encode_Arr. set (buf := concat (map encode items)).
    pose proof (encodeLength_nonempty (len buf) 192) as Hh.
    rewrite length_app. unfold len at 1 in Hh. cbn [nesting].
    assert (list_max (map nesting items) <= length buf)%nat; [|lia].
    rewrite list_max_le, Forall_forall. intros n Hn.
    apply in_map_iff in Hn as (i & <- & Hi).
    rewrite Forall_forall in IH. specialize (IH i Hi).
    pose proof (len_concat_In items i Hi). fold buf in H. unfold len in H. lia.
Qed.

Lemma decode_encode (input : Input) :
  len (encode input) < 2 ^ 64 -> decode (encode input) = Ok input.
Proof.
  intros Hsize. unfold decode.
  pose proof (encode_nonempty input) as Hne.
  destruct (encode input) as [|x e] eqn:E; [lens; lia|].
  rewrite <- E in *.
  pose proof (roundTrips_all input Hsize (length (encode input)) []
                (nesting_le_length input)) as H.
  rewrite app_nil_r in H. rewrite H. reflexivity.
Qed.

End RlpFacts.

(** * The rlp package: the decoder's errors *)

Module RlpTotal.
Import Rlp BytesFacts.

Lemma throwsDecodeError_Ok {A} (a : A) : throwsDecodeError (Ok a).
Proof. intros e He. discriminate He. Qed.

Lemma throwsDecodeError_Err {A} (message : string) :
  throwsDecodeError (@Err A (DecodeError message)).
Proof. intros e [= <-]. exists message. reflexivity. Qed.

Lemma throwsDecodeError_map {A B} (e : Error) :
  throwsDecodeError (@Err A e) -> throwsDecodeError (@Err B e).
Proof. intros H e' [= <-]. apply H. reflexivity. Qed.

Create HintDb rlp.
#[local] Hint Resolve throwsDecodeError_Ok throwsDecodeError_Err : rlp.

Lemma decodeItems_fuel (dec : Buffer -> result Decoded) (bound : nat) :
  progresses dec bound ->
  forall n rem, (length rem <= n)%nat -> (length rem <= bound)%nat ->
    throwsDecodeError (decodeItems dec n rem).
Proof.
  intros Hdec. induction n as [|n IH]; intros rem Hn Hb.
  - destruct rem; simpl in *; [auto with rlp | lia].
  - destruct rem as [|x rem]; [simpl; auto with rlp|].
    cbn [decodeItems].
    destruct (Hdec (x :: rem) ltac:(discriminate) Hb) as [Herr Hlt].
    destruct (dec (x :: rem)) as [d|e] eqn:E.
    + specialize (Hlt d eq_refl).
      specialize (IH (remainder d) ltac:(simpl in *; lia) ltac:(lia)).
      destruct (decodeItems dec n (remainder d)) as [l|e] eqn:E'.
      * auto with rlp.
      * revert IH. apply throwsDecodeError_map.
    + revert Herr. apply throwsDecodeError_map.
Qed.

Lemma safeParseInt_throws (v : Buffer) : throwsDecodeError (safeParseInt v).
Proof.
  unfold safeParseInt. destruct v as [|x v]; [auto with rlp|].
  destruct (byteVal x =? 0); auto with rlp.
Qed.

Lemma length_slice (b : Buffer) (s e : Z) :
  1 <= s -> b <> [] -> (length (slice b s e) < length b)%nat.
Proof.
  intros Hs Hb. unfold slice.
  rewrite length_firstn, length_skipn.
  destruct b; [congruence|]. simpl length. lia.
Qed.

Lemma length_sliceFrom (b : Buffer) (s : Z) :
  1 <= s -> b <> [] -> (length (sliceFrom b s) < length b)%nat.
Proof.
  intros Hs Hb. unfold sliceFrom. rewrite length_skipn.
  destruct b; [congruence|]. simpl length. lia.
Qed.

Ltac leaf Hne :=
  split;
  [ auto with rlp
  | first [ discriminate
          | intros ? [= <-]; cbn [remainder];
            apply length_sliceFrom; [lia | exact Hne] ] ].

Lemma _decode_progresses (fuel : nat) : progresses (_decode fuel) fuel.
Proof.
  induction fuel as [|fuel IH]; intros input Hne Hlen.
  - destruct input; [congruence | simpl in Hlen; lia].
  - destruct input as [|first input']; [congruence|].
    pose proof (byteVal_range first) as Hf.
    cbn [_decode]. cbv zeta.
    set (input := first :: input') in *.
    assert (Hitems : forall s e, 1 <= s ->
              throwsDecodeError (decodeItems (_decode fuel)
                                   (length (slice input s e)) (slice input s e))).
    { intros s e Hs. apply (decodeItems_fuel _ fuel IH); [lia|].
      pose proof (length_slice input s e Hs Hne). lia. }
    destruct (byteVal first <=? 127) eqn:E1; [leaf Hne|].
    apply Z.leb_gt in E1.
    destruct (byteVal first <=? 183) eqn:E2.
    { match goal with |- context [if ?c then Err _ else _] => destruct c end;
        leaf Hne. }
    apply Z.leb_gt in E2.
    destruct (byteVal first <=? 191) eqn:E3.
    { destruct (len input - 1 <? byteVal first - 182); [leaf Hne|].
      pose proof (safeParseInt_throws (slice input 1 (byteVal first - 182))) as Hp.
      destruct (safeParseInt (slice input 1 (byteVal first - 182))) as [n|e] eqn:En.
      - destruct (n <=? 55) eqn:E55; [leaf Hne|].
        apply Z.leb_gt in E55.
        match goal with |- context [if ?c then Err _ else _] => destruct c end;
          leaf Hne.
      - split; [revert Hp; apply throwsDecodeError_map | discriminate]. }
    apply Z.leb_gt in E3.
    destruct (byteVal first <=? 247) eqn:E4.
    { specialize (Hitems 1 (byteVal first - 191) ltac:(lia)).
      destruct (decodeItems (_decode fuel) _ _) as [l|e] eqn:El; [leaf Hne|].
      split; [revert Hitems; apply throwsDecodeError_map | discriminate]. }
    apply Z.leb_gt in E4.
    destruct (slice input 1 (byteVal first - 246)) as [|l0 lb] eqn:Els;
      [leaf Hne|].
    pose proof (safeParseInt_throws (l0 :: lb)) as Hp.
    destruct (safeParseInt (l0 :: lb)) as [n|e] eqn:En.
    + assert (0 <= n).
      { unfold safeParseInt in En. destruct (byteVal l0 =? 0); [discriminate|].
        injection En as <-. apply beValue_nonneg. }
      destruct (len input <? byteVal first - 246 + n); [leaf Hne|].
      specialize (Hitems (byteVal first - 246) (byteVal first - 246 + n)
                    ltac:(lia)).
      destruct (slice input (byteVal first - 246) (byteVal first - 246 + n))
        as [|i0 ir] eqn:Ei; [leaf Hne|].
      destruct (decodeItems (_decode fuel) _ _) as [l|e] eqn:El; [leaf Hne|].
      split; [revert Hitems; apply throwsDecodeError_map | discriminate].
    + split; [revert Hp; apply throwsDecodeError_map | discriminate].
Qed.

Lemma decode_throws (input : Buffer) : throwsDecodeError (decode input).
Proof.
  unfold decode.
  destruct input as [|x input]; [auto with rlp|].
  destruct (_decode_progresses (length (x :: input)) (x :: input)
              ltac:(discriminate) ltac:(lia)) as [Herr _].
  destruct (_decode (length (x :: input)) (x :: input)) as [d|e] eqn:E.
  - destruct (remainder d); auto with rlp.
  - revert Herr. apply throwsDecodeError_map.
Qed.

End RlpTotal.

(** * The translation in two steps *)

Module AntennaFacts.
Import Antenna BigNum BytesFacts.
Import Rlp(Input, Buf, Arr).

Lemma length_setLength (msg : Buffer) (n : nat) : length (setLength msg n) = n.
Proof.
  unfold setLength. destruct (Nat.ltb (length msg) n) eqn:E.
  - apply Nat.ltb_lt in E. unfold zeros. rewrite length_app, repeat_length. lia.
  - apply Nat.ltb_ge in E. rewrite length_skipn. lia.
Qed.

Lemma setLength_pads (msg : Buffer) (n : nat) :
  (length msg <= n)%nat -> setLength msg n = zeros (n - length msg) ++ msg.
Proof.
  intros H. unfold setLength. destruct (Nat.ltb (length msg) n) eqn:E.
  - reflexivity.
  - apply Nat.ltb_ge in E. replace (length msg) with n by lia.
    rewrite Nat.sub_diag. reflexivity.
Qed.

Lemma beValue_toBuffer (n : Z) : 0 <= n -> beValue (toBuffer n) = n.
Proof.
  intros Hn. unfold toBuffer, intToBuffer. destruct (n =? 0) eqn:E.
  - apply Z.eqb_eq in E. subst. reflexivity.
  - apply beValue_beBytes. exact Hn.
Qed.

Lemma toBuffer_positive (n : Z) : 0 < n -> toBuffer n = beBytes n.
Proof.
  intros Hn. unfold toBuffer, intToBuffer.
  destruct (n =? 0) eqn:E; [apply Z.eqb_eq in E; lia | reflexivity].
Qed.

Lemma pad_empty : unpadBuffer (toBuffer 0) = [].
Proof. reflexivity. Qed.

Lemma field_Buf (tx : list Input) (i : nat) (b : Buffer) :
  nth_error tx i = Some (Buf b) -> field tx i = Ok b.
Proof. intros H. unfold field. rewrite H. reflexivity. Qed.

Lemma field_Ok (tx : list Input) (i : nat) (b : Buffer) :
  field tx i = Ok b -> nth_error tx i = Some (Buf b).
Proof.
  unfold field. destruct (nth_error tx i) as [[b'|l]|]; intros [=]. congruence.
Qed.

Lemma field_NotModelled (tx : list Input) (i : nat) (what : string) :
  field tx i = Err (NotModelled what) -> what = "array item"%string.
Proof.
  unfold field. destruct (nth_error tx i) as [[b|l]|]; intros [=]. congruence.
Qed.

Lemma field_missing (tx : list Input) (i : nat) :
  (length tx <= i)%nat -> field tx i = Err (TypeError "Cannot read property of undefined").
Proof.
  intros H. unfold field. apply nth_error_None in H. rewrite H. reflexivity.
Qed.

Lemma field_app (tx extra : list Input) (i : nat) :
  (i < length tx)%nat -> field (tx ++ extra) i = field tx i.
Proof. intros H. unfold field. rewrite nth_error_app1 by exact H. reflexivity. Qed.

Lemma rawTx_app (tx extra : list Input) (c : N) :
  (6 <= length tx)%nat -> rawTx (tx ++ extra) c = rawTx tx c.
Proof.
  intros H. unfold rawTx. rewrite firstn_app.
  replace (6 - length tx)%nat with 0%nat by lia.
  rewrite firstn_O, app_nil_r. reflexivity.
Qed.

Lemma numberToBuffer_byte (z : Z) :
  z = 19 \/ z = 20 \/ z = 27 \/ z = 28 ->
  numberToBuffer (Some z) = Ok [byteOf z].
Proof. intros [-> | [-> | [-> | ->]]]; reflexivity. Qed.

Section Facts.
Variable keccak256 : Buffer -> Buffer.
Variable ecdsaRecover : Buffer -> Z -> Buffer -> option Buffer.
Variable fromBytes : Buffer -> result string.
Variable client : RpcMethod.

Local Notation "'run'" :=
  (sendRawTransaction keccak256 ecdsaRecover fromBytes client).
Local Notation "'translated'" :=
  (Translated keccak256 ecdsaRecover fromBytes).

Lemma bind_lift {A B} (r : result A) (k : A -> M B) :
  bind (lift r) k = match r with Ok a => k a | Err e => ([], Err e) end.
Proof.
  destruct r as [a|e]; [|reflexivity].
  unfold bind, lift. destruct (k a). reflexivity.
Qed.

Lemma sendRawTransaction_translate (req : RawTransactionRequest) :
  run req =
  match translate keccak256 ecdsaRecover fromBytes req with
  | Ok t => submit client t
  | Err e => ([], Err e)
  end.
Proof.
  unfold sendRawTransaction, translate.
  rewrite bind_lift.
  destruct (Rlp.decode (req_data req)) as [[b|tx]|e]; cbn [bindR]; try reflexivity.
  repeat (rewrite bind_lift;
          match goal with
          | |- context [bindR ?r _] => destruct r; cbn [bindR]; try reflexivity
          end).
Qed.

Lemma translate_Translated (req : RawTransactionRequest) (t : Translation) :
  translate keccak256 ecdsaRecover fromBytes req = Ok t -> translated req t.
Proof.
  unfold translate. intros H.
  destruct (Rlp.decode (req_data req)) as [[b|tx]|e] eqn:Ed; cbn [bindR] in H;
    try discriminate.
  repeat match type of H with
         | context [bindR ?r _] =>
             destruct r eqn:?; cbn [bindR] in H; try discriminate
         end.
  injection H as <-. constructor; cbn; assumption || reflexivity.
Qed.

Lemma submit_Submission (t : Translation) : Submission client t (submit client t).
Proof.
  unfold submit, classify.
  destruct (String.eqb (t_to t) "") eqn:E.
  - apply String.eqb_eq in E.
    replace (_ <- ret true;; _) with
      ([SendActionCall (envelope t true)],
       hashOf (sendAction client (envelope t true))).
    + constructor. exact E.
    + unfold bind, ret, awaitSendAction, hashOf.
      destruct (sendAction client (envelope t true)); reflexivity.
  - apply String.eqb_neq in E.
    unfold bind at 2, awaitGetAccount.
    destruct (getAccount client (t_to t)) as [account|e] eqn:Eg.
    + destruct (accountMeta account) as [meta|] eqn:Em.
      * replace (bind _ _) with
          ([GetAccountCall (t_to t); SendActionCall (envelope t (isContract meta))],
           hashOf (sendAction client (envelope t (isContract meta)))).
        -- econstructor; eassumption.
        -- unfold bind, ret, awaitSendAction, hashOf.
           destruct (sendAction client (envelope t (isContract meta))); reflexivity.
      * replace (bind _ _) with
          ([GetAccountCall (t_to t)], @Err string (ClassificationError (t_to t))).
        -- econstructor; eassumption.
        -- reflexivity.
    + replace (bind _ _) with ([GetAccountCall (t_to t)], @Err string e).
      * econstructor; eassumption.
      * reflexivity.
Qed.

(** Every run either fails before its first RPC call or goes one of the four
    ways of [Submission]. *)
Lemma run_cases (req : RawTransactionRequest) :
  (exists e, translate keccak256 ecdsaRecover fromBytes req = Err e /\
             run req = ([], Err e)) \/
  (exists t, translate keccak256 ecdsaRecover fromBytes req = Ok t /\
             translated req t /\ Submission client t (run req)).
Proof.
  rewrite sendRawTransaction_translate.
  destruct (translate keccak256 ecdsaRecover fromBytes req) as [t|e] eqn:E.
  - right. exists t. split; [reflexivity|]. split.
    + apply translate_Translated. exact E.
    + apply submit_Submission.
  - left. exists e. split; reflexivity.
Qed.

(** *** What a finished translation knows about the recovery value *)

Lemma Translated_recovery (req : RawTransactionRequest) (t : Translation) :
  translated req t ->
  isValidSigRecovery (calculateSigRecovery (t_vv t) (t_chainID t)) = true /\
  ecdsaRecover (setLength (t_tx7 t) 32 ++ setLength (t_tx8 t) 32)
    (calculateSigRecovery (t_vv t) (t_chainID t)) (keccak256 (t_raw t))
  = Some (t_publicKey t).
Proof.
  intros H. pose proof (tr_publicKey _ _ _ _ _ H) as Hpk.
  unfold ecrecover in Hpk.
  destruct (isValidSigRecovery _); cbn [negb] in Hpk; [|discriminate].
  split; [reflexivity|].
  destruct (ecdsaRecover _ _ _); [congruence | discriminate].
Qed.

Lemma Translated_vv (req : RawTransactionRequest) (t : Translation) :
  translated req t -> t_vv t = beValue (t_tx6 t) /\ t_vv t < 2 ^ 53.
Proof.
  intros H. pose proof (tr_vv _ _ _ _ _ H) as Hvv.
  unfold bufferToInt in Hvv. cbv zeta in Hvv.
  destruct (beValue (t_tx6 t) <? 2 ^ 53) eqn:E; [|discriminate].
  apply Z.ltb_lt in E. injection Hvv as <-. split; [reflexivity | exact E].
Qed.

Lemma valid_recovery (v : Z) (c : N) :
  isValidSigRecovery (calculateSigRecovery v c) = true ->
  (c <> 0%N -> v = 2 * Z.of_N c + 35 \/ v = 2 * Z.of_N c + 36) /\
  (c = 0%N -> v = 27 \/ v = 28).
Proof.
  unfold isValidSigRecovery, calculateSigRecovery.
  destruct (N.eqb_spec c 0) as [->|Hc]; intros H;
    apply orb_true_iff in H; rewrite !Z.eqb_eq in H; split; intros; try lia;
    congruence.
Qed.

Lemma Translated_normalized (req : RawTransactionRequest) (t : Translation) :
  translated req t ->
  t_v t = Num (normalized t) /\
  (t_chainID t <> 0%N -> normalized t = 27 \/ normalized t = 28) /\
  (t_chainID t = 0%N -> normalized t = 19 \/ normalized t = 20) /\
  t_vByte t = [byteOf (normalized t)].
Proof.
  intros H.
  destruct (Translated_recovery req t H) as [Hvalid _].
  destruct (Translated_vv req t H) as [Hvv _].
  apply valid_recovery in Hvalid. destruct Hvalid as [Hnz Hz].
  pose proof (tr_vByte _ _ _ _ _ H) as Hb.
  unfold normalized. rewrite <- Hvv.
  assert (Hne : t_tx6 t <> []).
  { intros E. rewrite E in Hvv. change (beValue []) with 0 in Hvv.
    destruct (N.eq_dec (t_chainID t) 0) as [Hc|Hc]; [specialize (Hz Hc)|specialize (Hnz Hc)]; lia. }
  assert (Hv : t_v t = Num (t_vv t - (Z.of_N (t_chainID t) * 2 + 8))).
  { unfold t_v, vNormalized, ofHex. rewrite Hvv.
    destruct (t_tx6 t); [congruence | reflexivity]. }
  rewrite Hv in Hb. cbn [toNumber] in Hb.
  split; [exact Hv|]. split; [intros Hc; specialize (Hnz Hc); lia|].
  split; [intros Hc; specialize (Hz Hc); lia|].
  rewrite numberToBuffer_byte in Hb; [congruence|].
  destruct (N.eq_dec (t_chainID t) 0) as [Hc|Hc];
    [specialize (Hz Hc) | specialize (Hnz Hc)]; lia.
Qed.

End Facts.
End AntennaFacts.

(** * Properties of the translation *)

Module Properties.
Import Antenna BigNum BytesFacts AntennaFacts.
Import Rlp(Input, Buf, Arr).

Section Env.
Variable keccak256 : Buffer -> Buffer.
Variable ecdsaRecover : Buffer -> Z -> Buffer -> option Buffer.
Variable fromBytes : Buffer -> result string.
Variable client : RpcMethod.

Local Notation "'run'" :=
  (sendRawTransaction keccak256 ecdsaRecover fromBytes client).
Local Notation "'translation'" :=
  (translate keccak256 ecdsaRecover fromBytes).

Lemma field_bound (tx : list Input) (i : nat) (b : Buffer) :
  field tx i = Ok b -> (i < length tx)%nat.
Proof.
  intros H. apply field_Ok in H. apply nth_error_Some. congruence.
Qed.

Lemma submitted_of_run (req : RawTransactionRequest) (t : Translation) :
  translation req = Ok t ->
  forall r, In r (submitted (fst (run req))) ->
    exists isContract, r = envelope t isContract.
Proof.
  intros Ht r Hin.
  destruct (run_cases keccak256 ecdsaRecover fromBytes client req)
    as [(e & He & _)|(t' & Ht' & _ & Hs)]; [congruence|].
  assert (t' = t) by congruence. subst t'.
  inversion Hs as [Hto Hrun|e Hto Hg Hrun|acc Hto Hg Hm Hrun|acc meta Hto Hg Hm Hrun];
    rewrite <- Hrun in Hin; cbn [fst submitted flat_map app] in Hin;
    try contradiction.
  - destruct Hin as [<-|[]]. eauto.
  - destruct Hin as [<-|[]]. eauto.
Qed.

Lemma failed_translation_is_silent (req : RawTransactionRequest) (e : Error) :
  translation req = Err e -> run req = ([], Err e).
Proof.
  intros H. rewrite sendRawTransaction_translate, H. reflexivity.
Qed.

(** A run makes an RPC call exactly when lines 93-113 have not thrown, that
    is, when [translate] returns: the properties below that speak of a
    [translate] that returns speak of the runs that reach the node. *)
Lemma rpc_iff_translated (req : RawTransactionRequest) :
  fst (run req) <> [] <-> exists t, translation req = Ok t.
Proof.
  destruct (run_cases keccak256 ecdsaRecover fromBytes client req)
    as [(e & He & Hrun)|(t & Ht & _ & Hs)].
  - rewrite Hrun. split; [intros H; contradiction H; reflexivity|].
    intros [t Ht]. congruence.
  - split; [eauto|]. intros _.
    inversion Hs; cbn [fst]; discriminate.
Qed.


Lemma envelope_chainID (t : Translation) (isContract : bool) :
  chainID (core (action (envelope t isContract))) = 0.
Proof. destruct isContract; reflexivity. Qed.

Lemma rawTx_chain_field (tx : list Input) (c : N) :
  (6 <= length tx)%nat ->
  nth_error (rawTx tx c) 6 = Some (Buf (toBuffer (Z.of_N c))).
Proof.
  intros H. unfold rawTx.
  rewrite nth_error_app2 by (rewrite length_firstn; lia).
  rewrite length_firstn. replace (6 - Nat.min 6 (length tx))%nat with 0%nat by lia.
  reflexivity.
Qed.

Lemma Translated_arity (req : RawTransactionRequest) (t : Translation) :
  Translated keccak256 ecdsaRecover fromBytes req t -> (9 <= length (t_tx t))%nat.
Proof.
  intros H. pose proof (field_bound _ _ _ (tr_tx8 _ _ _ _ _ H)). lia.
Qed.



Lemma envelope_senderPubKey (t : Translation) (isContract : bool) :
  senderPubKey (action (envelope t isContract)) = x04 :: t_publicKey t.
Proof. destruct isContract; reflexivity. Qed.

Lemma envelope_signature (t : Translation) (isContract : bool) :
  signature (action (envelope t isContract))
  = setLength (t_tx7 t) 32 ++ setLength (t_tx8 t) 32 ++ t_vByte t.
Proof. destruct isContract; reflexivity. Qed.

Lemma ecrecover_error (msgHash : Buffer) (v : Z) (r s : Buffer) (c : N)
    (e : Error) :
  ecrecover ecdsaRecover msgHash v r s c = Err e ->
  exists message, e = RecoveryError message.
Proof.
  unfold ecrecover. cbv zeta.
  destruct (negb (isValidSigRecovery (calculateSigRecovery v c))).
  - intros [= <-]. eauto.
  - destruct (ecdsaRecover _ _ _); intros [= <-]. eauto.
Qed.



(** C7, as amended: for a target chain id other than 0, [rlp.decode] gives
    back the nine fields of an encoded tuple, and the payload that the
    function encodes from them (and hashes) is byte for byte the reference
    encoding of the first six fields, the shortest big-endian form of the
    chain id and two empty strings. *)
Theorem resigning_payload_round_trip
    (f0 f1 f2 f3 f4 f5 f6 f7 f8 : Buffer) (chainId : N) :
  chainId <> 0%N ->
  len (Rlp.encode
         (Arr [Buf f0; Buf f1; Buf f2; Buf f3; Buf f4; Buf f5; Buf f6; Buf f7;
               Buf f8])) < 2 ^ 64 ->
  Rlp.decode
    (Rlp.encode
       (Arr [Buf f0; Buf f1; Buf f2; Buf f3; Buf f4; Buf f5; Buf f6; Buf f7;
             Buf f8]))
  = Ok (Arr [Buf f0; Buf f1; Buf f2; Buf f3; Buf f4; Buf f5; Buf f6; Buf f7;
             Buf f8]) /\
  Rlp.encode
    (Arr (rawTx [Buf f0; Buf f1; Buf f2; Buf f3; Buf f4; Buf f5; Buf f6;
                 Buf f7; Buf f8] chainId))
  = Reference.referencePayload f0 f1 f2 f3 f4 f5 chainId /\
  (forall t,
     translation
       (mkRawTransactionRequest chainId
          (Rlp.encode
             (Arr [Buf f0; Buf f1; Buf f2; Buf f3; Buf f4; Buf f5; Buf f6;
                   Buf f7; Buf f8]))) = Ok t ->
     t_raw t = Reference.referencePayload f0 f1 f2 f3 f4 f5 chainId).
Proof.
  intros Hc Hsize.
  pose proof (RlpFacts.decode_encode _ Hsize) as Hd.
  assert (Hraw : Rlp.encode
                   (Arr (rawTx [Buf f0; Buf f1; Buf f2; Buf f3; Buf f4; Buf f5;
                                Buf f6; Buf f7; Buf f8] chainId))
                 = Reference.referencePayload f0 f1 f2 f3 f4 f5 chainId).
  { unfold rawTx, Reference.referencePayload. cbn [firstn app].
    rewrite pad_empty, toBuffer_positive by lia. reflexivity. }
  split; [exact Hd|]. split; [exact Hraw|].
  intros t Ht. apply translate_Translated in Ht.
  pose proof (tr_decode _ _ _ _ _ Ht) as Hd'. cbn [req_data] in Hd'.
  rewrite Hd in Hd'. injection Hd' as Htx.
  pose proof (tr_chainID _ _ _ _ _ Ht) as Hch. cbn [req_chainID] in Hch.
  unfold t_raw. rewrite <- Htx, Hch. exact Hraw.
Qed.





Lemma vByte_defined (tx6 r s msgHash publicKey : Buffer) (vv : Z) (c : N) :
  bufferToInt tx6 = Ok vv ->
  ecrecover ecdsaRecover msgHash vv r s c = Ok publicKey ->
  numberToBuffer (toNumber (vNormalized tx6 c))
  = Ok [byteOf (beValue tx6 - (Z.of_N c * 2 + 8))].
Proof.
  intros Hvv Hpk.
  unfold bufferToInt in Hvv. cbv zeta in Hvv.
  destruct (beValue tx6 <? 2 ^ 53); [|discriminate]. injection Hvv as <-.
  unfold ecrecover in Hpk. cbv zeta in Hpk.
  destruct (isValidSigRecovery _) eqn:Hvalid; cbn [negb] in Hpk; [|discriminate].
  apply valid_recovery in Hvalid. destruct Hvalid as [Hnz Hz].
  assert (Hne : tx6 <> []).
  { intros ->. change (beValue []) with 0 in *.
    destruct (N.eq_dec c 0) as [Hc|Hc];
      [specialize (Hz Hc) | specialize (Hnz Hc)]; lia. }
  unfold vNormalized, ofHex. destruct tx6 as [|x tx6]; [congruence|].
  cbn [minus toNumber]. apply numberToBuffer_byte.
  destruct (N.eq_dec c 0) as [Hc|Hc];
    [specialize (Hz Hc) | specialize (Hnz Hc)]; lia.
Qed.


End Env.

(** X2: [rlp.decode] inverts [rlp.encode] on every Buffer or nested array of
    Buffers whose encoding is shorter than 2^64 bytes. *)
Theorem decode_inverts_encode (input : Input) :
  len (Rlp.encode input) < 2 ^ 64 -> Rlp.decode (Rlp.encode input) = Ok input.
Proof. apply RlpFacts.decode_encode. Qed.

(** X3: [rlp.decode] returns on every input, and when it fails it fails with
    an error that the package throws: the bound on the decoder's recursion
    is never reached. *)
Theorem decode_fails_only_with_decode_errors (input : Buffer) (e : Error) :
  Rlp.decode input = Err e -> exists message, e = DecodeError message.
Proof. apply RlpTotal.decode_throws. Qed.

Import Examples.

(** ** The properties on concrete transactions *)

(** On a long-string header with no length byte behind it. *)
Lemma decode_fails_only_with_decode_errors_witness :
  Rlp.decode [xb8; x01] = Err (DecodeError "invalid RLP: not enough bytes for string length") /\
  exists message,
    DecodeError "invalid RLP: not enough bytes for string length"
    = DecodeError message.
Proof.
  split; [vm_compute; reflexivity|].
  apply (decode_fails_only_with_decode_errors [xb8; x01]).
  vm_compute. reflexivity.
Defined.









(** C7 as the specification states it fails at chain id 0, whose Buffer is
    the byte 00 and not the empty string. *)
Lemma chain_id_zero_is_not_minimal :
  ~ (forall f0 f1 f2 f3 f4 f5 f6 f7 f8 chainId,
       Rlp.encode
         (Arr (rawTx [Buf f0; Buf f1; Buf f2; Buf f3; Buf f4; Buf f5; Buf f6;
                      Buf f7; Buf f8] chainId))
       = Reference.referencePayload f0 f1 f2 f3 f4 f5 chainId).
Proof.
  intros H. specialize (H [] [] [] [] [] [] [] [] [] 0%N).
  vm_compute in H. discriminate H.
Qed.

(** On the fields of a transfer signed for chain 4689. *)
Lemma resigning_payload_round_trip_witness :
  Rlp.encode (Arr (rawTx (legacyTx recipient oneToken 4689) 4689))
  = Reference.referencePayload [x01] [x01] [x52; x08] recipient oneToken []
      4689.
Proof.
  refine (proj1 (proj2 (resigning_payload_round_trip hashStub recoverStub
                          addressStub [x01] [x01] [x52; x08] recipient oneToken
                          [] (beBytes (2 * 4689 + 35)) (repeat x01 32)
                          (repeat x02 32) 4689 _ _))).
  - discriminate.
  - vm_compute. reflexivity.
Defined.








(** On the nine fields of a transfer. *)
Lemma decode_inverts_encode_witness :
  Rlp.decode (Rlp.encode (Arr (legacyTx recipient oneToken 4689)))
  = Ok (Arr (legacyTx recipient oneToken 4689)).
Proof.
  apply decode_inverts_encode. vm_compute. reflexivity.
Defined.


(** The scenario of the specification: a transfer of one token (10^18) to
    a plain account on chain 4689, with empty data. *)
Example one_token_transfer :
  map (fun r => (transfer (core (action r)), execution (core (action r))))
    (submitted (fst (send plainAccount
                       (request 4689 (legacyTx recipient oneToken 4689)))))
  = [(Some (mkTransfer "1000000000000000000" "io1recipient" []), None)] /\
  snd (send plainAccount (request 4689 (legacyTx recipient oneToken 4689)))
  = Ok "hash"%string.
Proof. vm_compute. split; reflexivity. Qed.

End Properties.

(** * Hexadecimal strings: reading back what was printed *)

Module HexFacts.
Import Hex BytesFacts.

Lemma hexVal_hexDigit (n : Z) : 0 <= n < 16 -> hexVal (hexDigit n) = Some n.
Proof.
  intros Hn. rewrite <- (Z2Nat.id n) by lia.
  assert (Hk : (Z.to_nat n < 16)%nat) by lia.
  remember (Z.to_nat n) as k eqn:Ek. clear Ek Hn n.
  do 16 (destruct k as [|k]; [reflexivity|]). lia.
Qed.

Lemma isHexDigit_hexDigit (n : Z) : 0 <= n < 16 -> isHexDigit (hexDigit n) = true.
Proof. intros Hn. unfold isHexDigit. rewrite hexVal_hexDigit by exact Hn. reflexivity. Qed.

Lemma nibbles (x : byte) :
  0 <= byteVal x / 16 < 16 /\ 0 <= byteVal x mod 16 < 16 /\
  16 * (byteVal x / 16) + byteVal x mod 16 = byteVal x.
Proof.
  pose proof (byteVal_range x) as Hx.
  pose proof (Z.div_mod (byteVal x) 16 ltac:(lia)).
  pose proof (Z.mod_pos_bound (byteVal x) 16 ltac:(lia)).
  assert (0 <= byteVal x / 16) by (apply Z.div_pos; lia).
  assert (byteVal x / 16 < 16) by (apply Z.div_lt_upper_bound; lia).
  lia.
Qed.

Lemma fromHex_toHex_app (b : Buffer) (s : string) :
  (forall c s', s = String c s' -> isHexDigit c = false) ->
  fromHex (toHex b ++ s) = b.
Proof.
  intros Hs. induction b as [|x b IH]; cbn [toHex append].
  - destruct s as [|c1 [|c2 s']]; cbn [fromHex]; try reflexivity.
    specialize (Hs c1 _ eq_refl). unfold isHexDigit in Hs.
    destruct (hexVal c1); [discriminate | reflexivity].
  - destruct (nibbles x) as (Hh & Hl & Hx).
    cbn [fromHex]. rewrite !hexVal_hexDigit by assumption.
    rewrite Hx, byteOf_byteVal, IH. reflexivity.
Qed.

Lemma fromHex_toHex (b : Buffer) : fromHex (toHex b) = b.
Proof.
  rewrite <- (fromHex_toHex_app b EmptyString) at 2 by discriminate.
  f_equal. induction b as [|x b IH]; cbn [toHex append]; [reflexivity|].
  rewrite <- IH. reflexivity.
Qed.

Lemma allHex_toHex (b : Buffer) : allHex (toHex b) = true.
Proof.
  induction b as [|x b IH]; [reflexivity|].
  destruct (nibbles x) as (Hh & Hl & _).
  cbn [toHex allHex]. rewrite !isHexDigit_hexDigit by assumption. exact IH.
Qed.

Lemma length_toHex (b : Buffer) : String.length (toHex b) = (2 * length b)%nat.
Proof.
  induction b as [|x b IH]; [reflexivity|].
  cbn [toHex String.length length]. rewrite IH. lia.
Qed.

Lemma padToEven_toHex (b : Buffer) : padToEven (toHex b) = toHex b.
Proof.
  unfold padToEven. rewrite length_toHex.
  replace (Nat.even (2 * length b)) with true; [reflexivity|].
  symmetry. apply Nat.even_spec. exists (length b). reflexivity.
Qed.

End HexFacts.

(** * Buffers as numbers *)

Module BufferValues.
Import BytesFacts Canonical.

Lemma beValue_app (a b : Buffer) :
  beValue (a ++ b) = beValue a * 256 ^ len b + beValue b.
Proof.
  unfold beValue at 1. fold beStep. rewrite fold_left_app, beValue_from.
  reflexivity.
Qed.

Lemma len_succ (x : byte) (b : Buffer) : len (x :: b) = len b + 1.
Proof. unfold len. cbn [length]. lia. Qed.

Lemma pow_len_pos (b : Buffer) : 0 < 256 ^ len b.
Proof. apply Z.pow_pos_nonneg; [lia | apply len_nonneg]. Qed.

Lemma beValue_bound (b : Buffer) : beValue b < 256 ^ len b.
Proof.
  induction b as [|x b IH].
  - reflexivity.
  - rewrite beValue_cons, len_succ, Z.pow_add_r by (pose proof (len_nonneg b); lia).
    pose proof (byteVal_range x). pose proof (pow_len_pos b). nia.
Qed.

Lemma beValue_zeros (k : nat) (m : Buffer) : beValue (zeros k ++ m) = beValue m.
Proof.
  induction k as [|k IH]; [reflexivity|].
  cbn [zeros repeat app]. rewrite beValue_cons. fold (zeros k). rewrite IH.
  reflexivity.
Qed.

Lemma beValue_unpadBuffer (b : Buffer) : beValue (unpadBuffer b) = beValue b.
Proof.
  induction b as [|x b IH]; [reflexivity|].
  cbn [unpadBuffer]. destruct (byteVal x =? 0) eqn:E; [|reflexivity].
  apply Z.eqb_eq in E. rewrite IH, beValue_cons, E. lia.
Qed.

Lemma minimal_unpadBuffer (b : Buffer) : minimal (unpadBuffer b).
Proof.
  induction b as [|x b IH]; [exact I|].
  cbn [unpadBuffer]. destruct (byteVal x =? 0) eqn:E; [exact IH|].
  apply Z.eqb_neq in E. exact E.
Qed.

Lemma minimal_beBytes (n : Z) : 0 <= n -> minimal (beBytes n).
Proof.
  intros Hn. destruct (Z.eq_dec n 0) as [->|Hz]; [exact I|].
  destruct (beBytes_head n ltac:(lia)) as (x & rest & -> & Hx). exact Hx.
Qed.

Lemma minimal_lower (x : byte) (b : Buffer) :
  byteVal x <> 0 -> 256 ^ len b <= beValue (x :: b).
Proof.
  intros Hx. rewrite beValue_cons.
  pose proof (byteVal_range x). pose proof (pow_len_pos b).
  pose proof (beValue_nonneg b). nia.
Qed.

Lemma byteVal_inj (x y : byte) : byteVal x = byteVal y -> x = y.
Proof.
  intros H. rewrite <- (byteOf_byteVal x), <- (byteOf_byteVal y), H. reflexivity.
Qed.

Lemma same_length_same_value (a : Buffer) : forall b,
  length a = length b -> beValue a = beValue b -> a = b.
Proof.
  induction a as [|x a IH]; intros [|y b] Hl Hv; try discriminate; [reflexivity|].
  injection Hl as Hl. rewrite !beValue_cons in Hv.
  assert (Hlen : len a = len b) by (unfold len; lia). rewrite Hlen in Hv.
  pose proof (beValue_bound a) as Ha. rewrite Hlen in Ha.
  pose proof (beValue_bound b). pose proof (beValue_nonneg a).
  pose proof (beValue_nonneg b). pose proof (pow_len_pos b).
  assert (byteVal x = byteVal y) by nia.
  f_equal; [apply byteVal_inj; assumption | apply IH; [assumption | nia]].
Qed.

Lemma minimal_length (a b : Buffer) :
  minimal a -> minimal b -> beValue a = beValue b -> (length a <= length b)%nat.
Proof.
  intros Ha Hb Hv. destruct a as [|x a]; [cbn; lia|].
  destruct b as [|y b].
  - pose proof (minimal_lower x a Ha). pose proof (pow_len_pos a).
    rewrite Hv in *. change (beValue []) with 0 in *. lia.
  - cbn [length]. apply le_n_S.
    destruct (Nat.le_gt_cases (length a) (length b)) as [|Hgt]; [assumption|].
    exfalso. pose proof (minimal_lower x a Ha) as Hlow.
    pose proof (beValue_bound (y :: b)) as Hup. rewrite len_succ in Hup.
    assert (256 ^ (len b + 1) <= 256 ^ len a)
      by (apply Z.pow_le_mono_r; unfold len; lia).
    lia.
Qed.

Lemma minimal_unique (a b : Buffer) :
  minimal a -> minimal b -> beValue a = beValue b -> a = b.
Proof.
  intros Ha Hb Hv. apply same_length_same_value; [|exact Hv].
  apply Nat.le_antisymm; apply minimal_length; auto.
Qed.

Lemma unpadBuffer_beBytes (b : Buffer) : unpadBuffer b = beBytes (beValue b).
Proof.
  pose proof (beValue_nonneg b).
  apply minimal_unique.
  - apply minimal_unpadBuffer.
  - apply minimal_beBytes. assumption.
  - rewrite beValue_unpadBuffer, beValue_beBytes by assumption. reflexivity.
Qed.

Lemma beValue_setLength (msg : Buffer) (n : nat) :
  beValue (setLength msg n) = beValue msg mod 256 ^ Z.of_nat n.
Proof.
  unfold setLength. destruct (Nat.ltb (length msg) n) eqn:E.
  - apply Nat.ltb_lt in E. rewrite beValue_zeros.
    symmetry. apply Z.mod_small. split; [apply beValue_nonneg|].
    eapply Z.lt_le_trans; [apply beValue_bound|].
    apply Z.pow_le_mono_r; unfold len; lia.
  - apply Nat.ltb_ge in E.
    set (k := (length msg - n)%nat).
    rewrite <- (firstn_skipn k msg) at 2. rewrite beValue_app.
    assert (Hl : len (skipn k msg) = Z.of_nat n)
      by (unfold len; rewrite length_skipn; lia).
    rewrite Hl. rewrite Z.add_comm, Z.mod_add by (apply Z.pow_nonzero; lia).
    symmetry. apply Z.mod_small. split; [apply beValue_nonneg|].
    rewrite <- Hl. apply beValue_bound.
Qed.

End BufferValues.

(** * Decimal numerals *)

Module Numerals.
Import BigNum.

Lemma length_string_of_uint (d : uint) :
  String.length (NilEmpty.string_of_uint d) = nb_digits d.
Proof. induction d; cbn [NilEmpty.string_of_uint String.length nb_digits]; congruence. Qed.

Lemma of_uint_acc_bounds (d : uint) : forall acc,
  Z.pos acc * 10 ^ Z.of_nat (nb_digits d) <= Z.pos (Pos.of_uint_acc d acc)
  < (Z.pos acc + 1) * 10 ^ Z.of_nat (nb_digits d).
Proof.
  induction d as [|d IH|d IH|d IH|d IH|d IH|d IH|d IH|d IH|d IH|d IH];
    intros acc; cbn [Pos.of_uint_acc nb_digits];
    [cbn; lia | ..];
    rewrite Nat2Z.inj_succ, Z.pow_succ_r by lia;
    match goal with
    | |- context [Pos.of_uint_acc d ?a] => specialize (IH a)
    end;
    assert (0 < 10 ^ Z.of_nat (nb_digits d)) by (apply Z.pow_pos_nonneg; lia);
    nia.
Qed.

Lemma to_uint_normal (p : positive) :
  nzhead (Pos.to_uint p) = Pos.to_uint p /\ Pos.to_uint p <> Nil.
Proof.
  split.
  - pose proof (DecimalPos.Unsigned.to_of (Pos.to_uint p)) as H.
    rewrite DecimalPos.Unsigned.of_to in H. cbn [N.to_uint] in H.
    pose proof (DecimalPos.Unsigned.to_uint_nonzero p) as Hz.
    unfold unorm in H. destruct (nzhead (Pos.to_uint p)) eqn:E;
      [rewrite <- H in Hz; contradiction Hz; reflexivity | symmetry; exact H ..].
  - apply DecimalPos.Unsigned.to_uint_nonnil.
Qed.

Lemma digits_bounds (p : positive) :
  10 ^ (Z.of_nat (nb_digits (Pos.to_uint p)) - 1) <= Z.pos p
  < 10 ^ Z.of_nat (nb_digits (Pos.to_uint p)).
Proof.
  destruct (to_uint_normal p) as [Hn Hnil].
  pose proof (DecimalPos.Unsigned.of_to p) as Hp.
  destruct (Pos.to_uint p) as [|l|l|l|l|l|l|l|l|l|l] eqn:E;
    [contradiction Hnil; reflexivity | ..].
  1: { exfalso. cbn [nzhead] in Hn.
       pose proof (DecimalFacts.nb_digits_nzhead l) as H. rewrite Hn in H.
       cbn [nb_digits] in H. lia. }
  all: cbn [Pos.of_uint] in Hp; injection Hp as Hp; rewrite <- Hp;
    cbn [nb_digits]; rewrite Nat2Z.inj_succ, Z.pow_succ_r by lia;
    replace (Z.succ (Z.of_nat (nb_digits l)) - 1) with (Z.of_nat (nb_digits l))
      by lia;
    match goal with
    | |- context [Pos.of_uint_acc ?l' ?a] =>
        pose proof (of_uint_acc_bounds l' a) as Hb
    end;
    assert (0 < 10 ^ Z.of_nat (nb_digits l)) by (apply Z.pow_pos_nonneg; lia);
    lia.
Qed.

Lemma length_decimal_pos (p : positive) :
  String.length (decimal (Z.pos p)) = nb_digits (Pos.to_uint p).
Proof.
  unfold decimal. cbn [Z.to_N N.to_uint]. unfold NilZero.string_of_uint.
  destruct (to_uint_normal p) as [_ Hnil].
  destruct (Pos.to_uint p) eqn:E; [contradiction Hnil; reflexivity | ..];
    rewrite <- E; apply length_string_of_uint.
Qed.

(** The number of digits of [decimal z], from both sides. *)
Lemma length_decimal_le (z : Z) (k : nat) :
  0 <= z < 10 ^ Z.of_nat k -> (1 <= k)%nat ->
  (String.length (decimal z) <= k)%nat.
Proof.
  intros Hz Hk. destruct z as [|p|p]; [cbn; lia | | lia].
  rewrite length_decimal_pos. pose proof (digits_bounds p) as [Hlow _].
  destruct (Nat.le_gt_cases (nb_digits (Pos.to_uint p)) k) as [|Hgt]; [assumption|].
  exfalso.
  assert (10 ^ Z.of_nat k <= 10 ^ (Z.of_nat (nb_digits (Pos.to_uint p)) - 1))
    by (apply Z.pow_le_mono_r; lia).
  lia.
Qed.

Lemma length_decimal_gt (z : Z) (k : nat) :
  10 ^ Z.of_nat k <= z -> (k < String.length (decimal z))%nat.
Proof.
  intros Hz.
  assert (0 < 10 ^ Z.of_nat k) by (apply Z.pow_pos_nonneg; lia).
  destruct z as [|p|p]; [lia | | lia].
  rewrite length_decimal_pos. pose proof (digits_bounds p) as [_ Hup].
  destruct (Nat.le_gt_cases (nb_digits (Pos.to_uint p)) k) as [Hle|]; [|assumption].
  exfalso.
  assert (10 ^ Z.of_nat (nb_digits (Pos.to_uint p)) <= 10 ^ Z.of_nat k)
    by (apply Z.pow_le_mono_r; lia).
  lia.
Qed.

Lemma decimal_reads_back (z : Z) : 0 <= z ->
  NilZero.uint_of_string (decimal z) = Some (N.to_uint (Z.to_N z)) /\
  Z.of_N (N.of_uint (N.to_uint (Z.to_N z))) = z.
Proof.
  intros Hz. split.
  - unfold decimal. apply NilZero.usu.
    destruct (Z.to_N z); [discriminate | apply DecimalPos.Unsigned.to_uint_nonnil].
  - rewrite DecimalN.Unsigned.of_to. lia.
Qed.

(** A string with a character that is not a digit is not a numeral. *)
Lemma not_a_numeral (s s' : string) (c : ascii) :
  (forall d, uint_of_char c d = None) ->
  NilZero.uint_of_string (s ++ String c s') = None.
Proof.
  intros Hc.
  assert (H : NilEmpty.uint_of_string (s ++ String c s') = None).
  { induction s as [|a s IH]; cbn [append NilEmpty.uint_of_string].
    - apply Hc.
    - rewrite IH. reflexivity. }
  unfold NilZero.uint_of_string. destruct (s ++ String c s')%string; [reflexivity | exact H].
Qed.

Lemma toExponential_not_a_numeral (str : string) (e : Z) :
  NilZero.uint_of_string (toExponential str e) = None.
Proof.
  unfold toExponential. destruct str as [|c [|c' rest]].
  - apply (not_a_numeral EmptyString). intros [d|]; reflexivity.
  - apply (not_a_numeral (String c EmptyString)). intros [d|]; reflexivity.
  - apply (not_a_numeral (String c EmptyString) _ "."). intros [d|]; reflexivity.
Qed.

Lemma toString_small (z : Z) : 0 <= z < 10 ^ 21 -> toString (Num z) = decimal z.
Proof.
  intros Hz. unfold toString. rewrite Z.abs_eq by lia.
  pose proof (length_decimal_le z 21 Hz ltac:(lia)).
  destruct (21 <=? Z.of_nat (String.length (decimal z)) - 1) eqn:E;
    [apply Z.leb_le in E; lia|].
  destruct (z <? 0) eqn:E'; [apply Z.ltb_lt in E'; lia | reflexivity].
Qed.

Lemma toString_large (z : Z) : 10 ^ 21 <= z ->
  toString (Num z)
  = toExponential (stripTrailingZeros (decimal z))
      (Z.of_nat (String.length (decimal z)) - 1).
Proof.
  intros Hz. unfold toString. rewrite Z.abs_eq by lia.
  pose proof (length_decimal_gt z 21 Hz).
  destruct (21 <=? Z.of_nat (String.length (decimal z)) - 1) eqn:E;
    [|apply Z.leb_gt in E; lia].
  destruct (z <? 0) eqn:E'; [apply Z.ltb_lt in E'; lia | reflexivity].
Qed.

Lemma toString_ofHex_reads (b : Buffer) :
  b <> [] -> beValue b < 10 ^ 21 ->
  toString (ofHex b) = decimal (beValue b) /\
  Numeral.readsAs (toString (ofHex b)) (beValue b).
Proof.
  intros Hne Hlt. pose proof (BytesFacts.beValue_nonneg b) as Hb.
  destruct b as [|x b]; [contradiction Hne; reflexivity|].
  cbn [ofHex]. rewrite toString_small by lia. split; [reflexivity|].
  destruct (decimal_reads_back (beValue (x :: b)) Hb) as [Hu Hv].
  exists (N.to_uint (Z.to_N (beValue (x :: b)))). split; assumption.
Qed.

End Numerals.

(** * Properties of the helpers *)

Module LibraryProperties.
Import Hex HexFacts Canonical BufferValues BigNum Numeral Numerals BytesFacts.

(** X5: a Buffer printed in hexadecimal reads back as itself, so line 108,
    which hashes the payload through its "0x" string, never throws and
    hashes exactly the encoded bytes. *)
Theorem hash_of_printed_payload (keccak256 : Buffer -> Buffer) (raw : Buffer) :
  fromHex (toHex raw) = raw /\
  keccakFromHexString keccak256 ("0x" ++ toHex raw) = Ok (keccak256 raw).
Proof.
  split; [apply fromHex_toHex|].
  unfold keccakFromHexString. cbn [append isHexString stripHexPrefix].
  rewrite allHex_toHex, padToEven_toHex, fromHex_toHex. reflexivity.
Qed.


(** X7: [unpadBuffer(b)] is the shortest big-endian form of the number that
    [b] holds, and the only Buffer without a leading zero that holds it. *)
Theorem unpadBuffer_is_the_minimal_form (b : Buffer) :
  unpadBuffer b = beBytes (beValue b) /\
  beValue (unpadBuffer b) = beValue b /\
  (forall m, minimal m -> beValue m = beValue b -> m = unpadBuffer b).
Proof.
  split; [apply unpadBuffer_beBytes|]. split; [apply beValue_unpadBuffer|].
  intros m Hm Hv. apply minimal_unique.
  - exact Hm.
  - apply minimal_unpadBuffer.
  - rewrite beValue_unpadBuffer. exact Hv.
Qed.

(** X8: what [new BigNumber(`0x${b.toString("hex")}`).toString()] prints:
    "NaN" for the empty Buffer, the decimal numeral of the number below
    10^21, and from 10^21 on a string in exponential notation, which is not
    a decimal numeral. *)
Theorem numbers_are_printed_in_three_forms (b : Buffer) :
  (b = [] -> toString (ofHex b) = "NaN"%string) /\
  (b <> [] -> beValue b < 10 ^ 21 ->
   toString (ofHex b) = decimal (beValue b) /\
   readsAs (toString (ofHex b)) (beValue b)) /\
  (10 ^ 21 <= beValue b ->
   NilZero.uint_of_string (toString (ofHex b)) = None).
Proof.
  pose proof (beValue_nonneg b) as Hb.
  split; [intros ->; reflexivity|]. split.
  - apply toString_ofHex_reads.
  - intros Hge. destruct b as [|x b]; [cbn in Hge; lia|].
    cbn [ofHex]. rewrite toString_large by exact Hge.
    apply toExponential_not_a_numeral.
Qed.

End LibraryProperties.

(** * Computations that log their calls *)

Module EffectsFacts.
Import Effects.

Lemma bind_returned {E X A B} (a : A) (k : A -> Logged E X B) :
  bind ([], Returned a) k = k a.
Proof. unfold bind. destruct (k a). reflexivity. Qed.

Lemma bind_thrown {E X A B} (calls : list E) (x : X) (k : A -> Logged E X B) :
  bind (calls, Thrown x) k = (calls, Thrown x).
Proof. reflexivity. Qed.

Lemma bind_call {E X A B} (c : E) (a : A) (k : A -> Logged E X B) :
  bind ([c], Returned a) k = (c :: fst (k a), snd (k a)).
Proof. unfold bind. destruct (k a). reflexivity. Qed.

End EffectsFacts.

(** * More properties of [sendRawTransaction] *)

Module TransactionProperties.
Import Antenna BigNum BytesFacts AntennaFacts Numeral.
Import Rlp(Input, Buf, Arr).

Lemma app3_inj {A} (l l' : list A) (a b c a' b' c' : A) :
  l ++ [a; b; c] = l' ++ [a'; b'; c'] -> l = l' /\ a = a'.
Proof.
  change (l ++ [a; b; c]) with (l ++ [a] ++ [b] ++ [c]).
  change (l' ++ [a'; b'; c']) with (l' ++ [a'] ++ [b'] ++ [c']).
  rewrite !app_assoc. intros H.
  apply app_inj_tail in H as [H _]. apply app_inj_tail in H as [H _].
  apply app_inj_tail in H. exact H.
Qed.

(** X9: the payload that is hashed for the recovery determines the chain id
    and the first six fields: two payloads are the same bytes only for the
    same chain id, so a signature over the payload of one chain is a
    signature over no payload of another. *)
Theorem signed_payload_fixes_fields_and_chain (tx1 tx2 : list Input) (c1 c2 : N) :
  len (Rlp.encode (Arr (rawTx tx1 c1))) < 2 ^ 64 ->
  Rlp.encode (Arr (rawTx tx1 c1)) = Rlp.encode (Arr (rawTx tx2 c2)) ->
  firstn 6 tx1 = firstn 6 tx2 /\ c1 = c2.
Proof.
  intros Hlen He.
  pose proof (RlpFacts.decode_encode (Arr (rawTx tx1 c1)) Hlen) as H1.
  rewrite He in Hlen.
  pose proof (RlpFacts.decode_encode (Arr (rawTx tx2 c2)) Hlen) as H2.
  rewrite He, H2 in H1. injection H1 as H. unfold rawTx in H.
  apply app3_inj in H as [Hf Hc]. split; [symmetry; exact Hf|].
  injection Hc as Hc. apply (f_equal beValue) in Hc.
  rewrite !beValue_toBuffer in Hc by lia. lia.
Qed.

Section Env.
Variable keccak256 : Buffer -> Buffer.
Variable ecdsaRecover : Buffer -> Z -> Buffer -> option Buffer.
Variable fromBytes : Buffer -> result string.
Variable client : RpcMethod.

Local Notation "'run'" :=
  (sendRawTransaction keccak256 ecdsaRecover fromBytes client).
Local Notation "'translation'" :=
  (translate keccak256 ecdsaRecover fromBytes).



End Env.
End TransactionProperties.

(** * [estimateGas] *)

Module GasFacts.
Import Antenna Hex HexFacts Effects EffectsFacts Gas.

Lemma await_gas (c : GasCall) (r : result EstimateActionGasResponse) :
  bind (await c (ofResult r)) (fun response => ([], Returned (gas response)))
  = ([c], gasOf r).
Proof. destruct r; reflexivity. Qed.

Section Facts.
Variable fromBytes : Buffer -> result string.
Variable bigNumberToString : string -> string.
Variable getAccount : string -> result GetAccountResponse.
Variable estimateActionGasConsumption :
  EstimateActionGasRequest -> result EstimateActionGasResponse.

Local Notation "'run'" :=
  (estimateGas fromBytes bigNumberToString getAccount
     estimateActionGasConsumption).

(** Every run goes one of the six ways of [Estimation]. *)
Lemma estimate_cases (req : EstimateGasRequest) :
  Estimation fromBytes bigNumberToString getAccount
    estimateActionGasConsumption req (run req).
Proof.
  unfold estimateGas.
  destruct (recipientOf fromBytes req) as [to|e] eqn:Et;
    [|apply BadRecipient; exact Et].
  cbn [ofResult]. rewrite bind_returned.
  destruct (callerOf fromBytes req) as [from|e] eqn:Ef;
    [|eapply BadCaller; eassumption].
  cbn [ofResult]. rewrite bind_returned. unfold classifyGas, ret, throw.
  destruct (String.eqb to "") eqn:E.
  - apply String.eqb_eq in E. subst to.
    rewrite bind_returned. cbv beta. rewrite await_gas.
    apply EstimateCreation; assumption.
  - apply String.eqb_neq in E. unfold await at 1.
    destruct (getAccount to) as [account|e] eqn:Eg; cbn [ofResult].
    + rewrite bind_call. cbv beta.
      destruct (accountMeta account) as [meta|] eqn:Em.
      * cbn [fst snd]. rewrite bind_call. cbv beta. rewrite await_gas.
        cbn [fst snd].
        eapply EstimateClassified; eassumption.
      * cbn [fst snd]. rewrite bind_thrown.
        eapply GasLookupWithoutMeta; eassumption.
    + rewrite !bind_thrown. eapply GasLookupRejected; eassumption.
Qed.

End Facts.
End GasFacts.

Module GasProperties.
Import Antenna Hex HexFacts Effects Gas GasFacts.

Section Env.
Variable fromBytes : Buffer -> result string.
Variable bigNumberToString : string -> string.
Variable getAccount : string -> result GetAccountResponse.
Variable estimateActionGasConsumption :
  EstimateActionGasRequest -> result EstimateActionGasResponse.

Local Notation "'run'" :=
  (estimateGas fromBytes bigNumberToString getAccount
     estimateActionGasConsumption).
Local Notation "'cases'" :=
  (estimate_cases fromBytes bigNumberToString getAccount
     estimateActionGasConsumption).

(** X12: one run of [estimateGas] makes at most one lookup and then at most
    one estimate.  It makes the lookup exactly when the recipient is not
    empty; a lookup that is rejected or returns no [accountMeta] ends the
    run with that rejection or with the classification error, and no
    estimate is asked for.  What the run returns is the [gas] of the answer
    to its one estimate, and a rejected estimate is rethrown unchanged. *)
Theorem estimate_calls_of_one_run (req : EstimateGasRequest) :
  (length (gasLookups (fst (run req))) <= 1)%nat /\
  (length (estimates (fst (run req))) <= 1)%nat /\
  (forall from to, recipientOf fromBytes req = Ok to ->
     callerOf fromBytes req = Ok from ->
     gasLookups (fst (run req)) = if String.eqb to "" then [] else [to]) /\
  (forall r, In r (estimates (fst (run req))) ->
     snd (run req) = gasOf (estimateActionGasConsumption r)) /\
  (forall g, snd (run req) = Returned g ->
     exists r response,
       estimates (fst (run req)) = [r] /\
       estimateActionGasConsumption r = Ok response /\ gas response = g) /\
  (forall address account, In address (gasLookups (fst (run req))) ->
     getAccount address = Ok account -> accountMeta account = None ->
     run req = ([GasGetAccount address], Thrown (ClassificationError address))) /\
  (forall address e, In address (gasLookups (fst (run req))) ->
     getAccount address = Err e ->
     run req = ([GasGetAccount address], Thrown e)).
Proof.
  pose proof (cases req) as H.
  inversion H as [e Ht Hrun|to e Ht Hf Hrun|from Ht Hf Hrun
                 |from to e Ht Hf Hto Hg Hrun
                 |from to account Ht Hf Hto Hg Hm Hrun
                 |from to account meta Ht Hf Hto Hg Hm Hrun];
    cbn [fst snd gasLookups estimates flat_map app length].
  - repeat split; try lia; try contradiction; try discriminate.
    intros; congruence.
  - repeat split; try lia; try contradiction; try discriminate.
    intros; congruence.
  - repeat split; try lia; try contradiction.
    + intros from' to' Ht' _. assert (to' = EmptyString) by congruence.
      subst. reflexivity.
    + intros r [<-|[]]. reflexivity.
    + intros g Hg. unfold gasOf in Hg.
      destruct (estimateActionGasConsumption _) as [response|] eqn:E;
        [|discriminate].
      injection Hg as Hg. eauto.
  - repeat split; try lia; try contradiction; try discriminate.
    + intros from' to' Ht' _. assert (to' = to) by congruence. subst.
      apply String.eqb_neq in Hto. rewrite Hto. reflexivity.
    + intros address account [<-|[]]. congruence.
    + intros address e' [<-|[]] Hg'. congruence.
  - repeat split; try lia; try contradiction; try discriminate.
    + intros from' to' Ht' _. assert (to' = to) by congruence. subst.
      apply String.eqb_neq in Hto. rewrite Hto. reflexivity.
    + intros address account' [<-|[]] _ _. reflexivity.
    + intros address e' [<-|[]] Hg'. congruence.
  - repeat split; try lia; try contradiction.
    + intros from' to' Ht' _. assert (to' = to) by congruence. subst.
      apply String.eqb_neq in Hto. rewrite Hto. reflexivity.
    + intros r [<-|[]]. reflexivity.
    + intros g Hgas. unfold gasOf in Hgas.
      destruct (estimateActionGasConsumption _) as [response|] eqn:E;
        [|discriminate].
      injection Hgas as Hgas. eauto.
    + intros address account' [<-|[]] Hg' Hm'. congruence.
    + intros address e' [<-|[]] Hg'. congruence.
Qed.

(** X13: the request that is estimated carries exactly one of [transfer]
    and [execution]: an execution when the recipient is empty or the lookup
    says it is a contract, a transfer otherwise.  Either carries the
    recipient address and the bytes of [req.data]; the caller is the address
    of [req.from]. *)
Theorem estimate_follows_classification (req : EstimateGasRequest) :
  Forall (fun r =>
            exists from to,
              callerOf fromBytes req = Ok from /\
              recipientOf fromBytes req = Ok to /\
              callerAddress r = from /\
              ((est_transfer r = None /\
                est_execution r
                = Some (mkGasExecution
                          (executionAmount bigNumberToString (eg_value req))
                          to (dataOf (eg_data req))) /\
                (to = EmptyString \/
                 exists account meta,
                   getAccount to = Ok account /\
                   accountMeta account = Some meta /\
                   isContract meta = true)) \/
               (est_execution r = None /\
                est_transfer r
                = Some (mkGasTransfer
                          (transferAmount bigNumberToString (eg_value req))
                          to (dataOf (eg_data req))) /\
                to <> EmptyString /\
                exists account meta,
                  getAccount to = Ok account /\
                  accountMeta account = Some meta /\
                  isContract meta = false)))
    (estimates (fst (run req))).
Proof.
  pose proof (cases req) as H.
  inversion H as [e Ht Hrun|to e Ht Hf Hrun|from Ht Hf Hrun
                 |from to e Ht Hf Hto Hg Hrun
                 |from to account Ht Hf Hto Hg Hm Hrun
                 |from to account meta Ht Hf Hto Hg Hm Hrun];
    cbn [fst estimates flat_map app]; try apply Forall_nil;
    (apply Forall_cons; [|apply Forall_nil]).
  - exists from, EmptyString. repeat (split; [assumption || reflexivity|]).
    left. split; [reflexivity|]. split; [reflexivity|]. left. reflexivity.
  - exists from, to. unfold estimateRequest.
    destruct (isContract meta) eqn:Ec; cbn [negb];
      repeat (split; [assumption || reflexivity|]).
    + left. split; [reflexivity|]. split; [reflexivity|]. right. eauto.
    + right. split; [reflexivity|]. split; [reflexivity|]. split; eauto.
Qed.

(** X14: what an estimate carries for the fields the request leaves out.
    Without [from] the caller is the fixed address; without [data] the
    payload is the empty string; without [to] the request is an execution on
    the empty contract address.  Without [value] the amount of an execution
    is "0", and the amount of a transfer is "NaN". *)
Theorem estimate_of_missing_fields (req : EstimateGasRequest) :
  Forall (fun r =>
            (truthy (eg_from req) = None -> callerAddress r = defaultCaller) /\
            (truthy (eg_data req) = None ->
             (forall t, est_transfer r = Some t -> gt_payload t = DataEmptyString) /\
             (forall x, est_execution r = Some x -> ge_data x = DataEmptyString)) /\
            (truthy (eg_to req) = None ->
             est_transfer r = None /\
             exists x, est_execution r = Some x /\ ge_contract x = EmptyString) /\
            (eg_value req = None ->
             (forall t, est_transfer r = Some t -> gt_amount t = "NaN"%string) /\
             (forall x, est_execution r = Some x -> ge_amount x = "0"%string)))
    (estimates (fst (run req))).
Proof.
  assert (Hshape : forall from to isContract,
    callerOf fromBytes req = Ok from -> recipientOf fromBytes req = Ok to ->
    (to = EmptyString -> isContract = true) ->
    let r := estimateRequest bigNumberToString req from to isContract in
    (truthy (eg_from req) = None -> callerAddress r = defaultCaller) /\
    (truthy (eg_data req) = None ->
     (forall t, est_transfer r = Some t -> gt_payload t = DataEmptyString) /\
     (forall x, est_execution r = Some x -> ge_data x = DataEmptyString)) /\
    (truthy (eg_to req) = None ->
     est_transfer r = None /\
     exists x, est_execution r = Some x /\ ge_contract x = EmptyString) /\
    (eg_value req = None ->
     (forall t, est_transfer r = Some t -> gt_amount t = "NaN"%string) /\
     (forall x, est_execution r = Some x -> ge_amount x = "0"%string))).
  { intros from to isContract Hf Ht Hc r. subst r.
    unfold callerOf in Hf. unfold recipientOf in Ht. unfold estimateRequest.
    split; [|split; [|split]].
    - intros E. rewrite E in Hf. injection Hf as <-.
      destruct isContract; reflexivity.
    - intros E. unfold dataOf. rewrite E.
      destruct isContract; cbn; split; intros ? [= <-]; reflexivity
        || (intros; discriminate).
    - intros E. rewrite E in Ht. injection Ht as <-.
      rewrite (Hc eq_refl). cbn. split; [reflexivity|]. eauto.
    - intros E. rewrite E. unfold transferAmount, executionAmount. cbn [truthy].
      destruct isContract; cbn; split; intros ? [= <-]; reflexivity
        || (intros; discriminate). }
  pose proof (cases req) as H.
  inversion H as [e Ht Hrun|to e Ht Hf Hrun|from Ht Hf Hrun
                 |from to e Ht Hf Hto Hg Hrun
                 |from to account Ht Hf Hto Hg Hm Hrun
                 |from to account meta Ht Hf Hto Hg Hm Hrun];
    cbn [fst estimates flat_map app]; try apply Forall_nil;
    (apply Forall_cons; [|apply Forall_nil]).
  - apply Hshape; auto.
  - apply Hshape; auto; intros ->; contradiction Hto; reflexivity.
Qed.

End Env.
End GasProperties.

(** * [estimateGas] and [sendRawTransaction] on the same transaction *)

Module Agreement.
Import Antenna Hex HexFacts Effects Gas GasFacts AntennaFacts.

Section Env.
Variable keccak256 : Buffer -> Buffer.
Variable ecdsaRecover : Buffer -> Z -> Buffer -> option Buffer.
Variable fromBytes : Buffer -> result string.
Variable client : RpcMethod.
Variable bigNumberToString : string -> string.
Variable estimateActionGasConsumption :
  EstimateActionGasRequest -> result EstimateActionGasResponse.

Local Notation "'send'" :=
  (sendRawTransaction keccak256 ecdsaRecover fromBytes client).
Local Notation "'estimate'" :=
  (estimateGas fromBytes bigNumberToString (getAccount client)
     estimateActionGasConsumption).

Lemma recipientOf_hex (b : Buffer) (req : EstimateGasRequest) :
  eg_to req = Some ("0x" ++ toHex b)%string ->
  recipientOf fromBytes req = fromBytes b.
Proof.
  intros H. unfold recipientOf, addressOfHex. rewrite H.
  cbn [append truthy substring2]. rewrite fromHex_toHex. reflexivity.
Qed.

Lemma dataOf_hex (b : Buffer) :
  dataOf (Some ("0x" ++ toHex b)%string) = DataBuffer b.
Proof.
  unfold dataOf. cbn [append truthy substring2]. rewrite fromHex_toHex.
  reflexivity.
Qed.


End Env.
End Agreement.

(** * The flows that sign with an account *)

Module FlowProperties.
Import Effects EffectsFacts Flows.

Section Env.
Context {Account ABIDefinition Args Quantity Bytes Execution Result : Type}.

Local Notation "'Flow'" :=
  (Logged (@FlowCall Account ABIDefinition Args Quantity Bytes Execution)
     FlowError).

Variable signer : option (@SignerPlugin Account).
Variable accounts_getAccount : string -> option Account.
Variable JSON_parse : string -> option ABIDefinition.
Variable transferExecute : Account -> @TransferFields Quantity -> result string.
Variable claimExecute : Account -> @ClaimFields Quantity Bytes -> result string.
Variable contractDeploy :
  ABIDefinition -> Bytes -> Account -> Args -> Quantity -> Quantity ->
  Quantity -> result string.
Variable contractMethod :
  ABIDefinition -> string -> string -> Args -> @MethodOptions Account Quantity ->
  result string.
Variable pureEncodeMethod :
  ABIDefinition -> string -> string -> string -> Args -> result Execution.
Variable readContract : @ReadContractRequest Execution -> result Bytes.
Variable decodeMethodResult :
  ABIDefinition -> string -> string -> Bytes -> result Result.

Local Notation "'resolve'" :=
  (tryGetAccount signer accounts_getAccount : string -> Flow Account).

(** A flow that waits for its sender: it throws what the resolution of
    [from] throws, having made no other call, and otherwise makes one more
    call, which signs with the account that was resolved. *)
Local Notation "'waitsFor'" :=
  (fun (from : string) (run : Flow string) =>
     (forall x, snd (resolve from) = Thrown x ->
        run = (fst (resolve from), Thrown x)) /\
     (forall sender, snd (resolve from) = Returned sender ->
        exists c answer,
          run = (fst (resolve from) ++ [c], answer) /\
          senderOf c = Some sender /\ isSignerGetAccount c = false)).

Lemma bind_resolve {B} (from : string) (k : Account -> Flow B) :
  bind (resolve from) k =
  match snd (resolve from) with
  | Thrown x => (fst (resolve from), Thrown x)
  | Returned sender =>
      (fst (resolve from) ++ fst (k sender), snd (k sender))
  end.
Proof.
  destruct (resolve from) as [calls [sender|x]]; cbn [bind fst snd];
    [destruct (k sender)|]; reflexivity.
Qed.

(** X16: the signer's [getAccount] is the only source of the sender when the
    signer has one.  The local accounts are then not consulted: the outcome
    is the same whatever they hold, and an address that the signer answers
    with no account is not found even if a local account has it. *)
Theorem local_accounts_are_no_fallback (s : @SignerPlugin Account)
    (getAccount : string -> result (option Account))
    (accounts accounts' : string -> option Account) (address : string) :
  signer_getAccount s = Some getAccount ->
  (tryGetAccount (Some s) accounts address : Flow Account)
  = tryGetAccount (Some s) accounts' address /\
  fst (tryGetAccount (Some s) accounts address : Flow Account)
  = [SignerGetAccount address] /\
  (getAccount address = Ok None ->
   snd (tryGetAccount (Some s) accounts address : Flow Account)
   = Thrown (CannotFindAccount address)).
Proof.
  intros Hs. unfold tryGetAccount. rewrite Hs. unfold await.
  destruct (getAccount address) as [[a|]|e]; cbn; repeat split;
    intros; discriminate.
Qed.

(** X17: the four flows that sign execute nothing until their sender is
    resolved.  [sendTransfer], [claimFromRewardingFund], and [deployContract]
    and [executeContract] once the ABI is parsed, throw what [tryGetAccount]
    throws for [req.from], with no call but its lookup; otherwise they make
    exactly one more call, and it signs with the account that
    [tryGetAccount] returned. *)
Theorem signed_flows_wait_for_the_sender :
  (forall req,
     waitsFor (tr_from req)
       (sendTransfer signer accounts_getAccount transferExecute req)) /\
  (forall req,
     waitsFor (cl_from req)
       (claimFromRewardingFund signer accounts_getAccount claimExecute req)) /\
  (forall req args abi,
     (parseAbi JSON_parse (cr_abi req) : Flow ABIDefinition)
     = ([], Returned abi) ->
     waitsFor (cr_from req)
       (deployContract signer accounts_getAccount JSON_parse contractDeploy
          req args)) /\
  (forall req args abi,
     (parseAbi JSON_parse (ec_abi req) : Flow ABIDefinition)
     = ([], Returned abi) ->
     waitsFor (ec_from req)
       (executeContract signer accounts_getAccount JSON_parse contractMethod
          req args)).
Proof.
  repeat split.
  - intros x Hx. unfold sendTransfer. rewrite bind_resolve, Hx. reflexivity.
  - intros sender Hs. unfold sendTransfer. rewrite bind_resolve, Hs.
    unfold await. cbn [fst snd]. eauto.
  - intros x Hx. unfold claimFromRewardingFund. rewrite bind_resolve, Hx.
    reflexivity.
  - intros sender Hs. unfold claimFromRewardingFund. rewrite bind_resolve, Hs.
    unfold await. cbn [fst snd]. eauto.
  - intros x Hx. unfold deployContract. rewrite H, bind_returned.
    rewrite bind_resolve, Hx. reflexivity.
  - intros sender Hs. unfold deployContract. rewrite H, bind_returned.
    rewrite bind_resolve, Hs. unfold await. cbn [fst snd]. eauto.
  - intros x Hx. unfold executeContract. rewrite H, bind_returned.
    rewrite bind_resolve, Hx. reflexivity.
  - intros sender Hs. unfold executeContract. rewrite H, bind_returned.
    rewrite bind_resolve, Hs. unfold await. cbn [fst snd]. eauto.
Qed.

(** X18: an ABI given as a string that [JSON.parse] refuses stops
    [deployContract], [executeContract] and [readContractByMethod] with the
    parse error before any call: no account is looked up and nothing is
    deployed, executed or read. *)
Theorem unparsable_abi_stops_before_any_call (s : string) :
  JSON_parse s = None ->
  (forall req args, cr_abi req = AbiString s ->
     (deployContract signer accounts_getAccount JSON_parse contractDeploy req
        args : Flow string)
     = ([], Thrown ParseAbiError)) /\
  (forall req args, ec_abi req = AbiString s ->
     (executeContract signer accounts_getAccount JSON_parse contractMethod req
        args : Flow string)
     = ([], Thrown ParseAbiError)) /\
  (forall req args, ec_abi req = AbiString s ->
     (readContractByMethod JSON_parse pureEncodeMethod readContract
        decodeMethodResult req args : Flow Result)
     = ([], Thrown ParseAbiError)).
Proof.
  intros Hs. repeat split; intros req args Habi.
  - unfold deployContract, parseAbi. rewrite Habi, Hs. reflexivity.
  - unfold executeContract, parseAbi. rewrite Habi, Hs. reflexivity.
  - unfold readContractByMethod, parseAbi. rewrite Habi, Hs. reflexivity.
Qed.

(** X19: [readContractByMethod] resolves no account.  Its only call is one
    [readContract], whose [callerAddress] is [req.from] as it was given; and
    what it returns is the decoding of the data that this call answered. *)
Theorem reading_resolves_no_account
    (req : @ExecuteContractRequest ABIDefinition Quantity) (args : Args) :
  let run :=
    (readContractByMethod JSON_parse pureEncodeMethod readContract
       decodeMethodResult req args : Flow Result) in
  (length (fst run) <= 1)%nat /\
  Forall (fun c => exists execution,
            c = ReadContract (mkReadContractRequest execution (ec_from req)))
    (fst run) /\
  (forall v, snd run = Returned v ->
     exists abi execution data,
       fst run = [ReadContract (mkReadContractRequest execution (ec_from req))] /\
       readContract (mkReadContractRequest execution (ec_from req)) = Ok data /\
       decodeMethodResult abi (ec_contractAddress req) (ec_method req) data
       = Ok v).
Proof.
  unfold readContractByMethod, parseAbi.
  destruct (ec_abi req) as [s|abi].
  - destruct (JSON_parse s) as [abi|].
    + unfold ret. rewrite bind_returned.
      destruct (pureEncodeMethod abi (ec_contractAddress req) "0" (ec_method req)
                  args) as [execution|e]; cbn [awaited].
      * rewrite bind_returned. unfold await.
        destruct (readContract _) as [data|e] eqn:Er; cbn [awaited].
        -- rewrite bind_call. cbn [fst snd length].
           split; [lia|]. split; [repeat constructor; eauto|].
           intros v Hv. exists abi, execution, data.
           split; [reflexivity|]. split; [exact Er|].
           destruct (decodeMethodResult _ _ _ _); cbn in Hv; congruence.
        -- rewrite bind_thrown. cbn [fst snd length].
           split; [lia|]. split; [repeat constructor; eauto|]. discriminate.
      * rewrite bind_thrown. cbn. split; [lia|]. split; [constructor|].
        discriminate.
    + unfold throw. rewrite bind_thrown. cbn. split; [lia|].
      split; [constructor|]. discriminate.
  - unfold ret. rewrite bind_returned.
    destruct (pureEncodeMethod abi (ec_contractAddress req) "0" (ec_method req)
                args) as [execution|e]; cbn [awaited].
    + rewrite bind_returned. unfold await.
      destruct (readContract _) as [data|e] eqn:Er; cbn [awaited].
      * rewrite bind_call. cbn [fst snd length].
        split; [lia|]. split; [repeat constructor; eauto|].
        intros v Hv. exists abi, execution, data.
        split; [reflexivity|]. split; [exact Er|].
        destruct (decodeMethodResult _ _ _ _); cbn in Hv; congruence.
      * rewrite bind_thrown. cbn [fst snd length].
        split; [lia|]. split; [repeat constructor; eauto|]. discriminate.
    + rewrite bind_thrown. cbn. split; [lia|]. split; [constructor|].
      discriminate.
Qed.

End Env.
End FlowProperties.

(** * The properties on concrete requests *)

Module Scenarios.
Import Antenna BigNum Hex Effects Gas Flows Examples Scenes Numeral.
Import Rlp(Input, Buf, Arr).

(** On two transactions that differ in their signature fields only. *)
Lemma signed_payload_fixes_fields_and_chain_witness :
  firstn 6 (legacyTx recipient oneToken 4689)
  = firstn 6 (legacyTx recipient oneToken 1) /\ 4689%N = 4689%N.
Proof.
  apply (TransactionProperties.signed_payload_fixes_fields_and_chain
           (legacyTx recipient oneToken 4689) (legacyTx recipient oneToken 1)
           4689 4689);
    vm_compute; reflexivity.
Defined.



(** On an address that only the local accounts hold. *)
Lemma local_accounts_are_no_fallback_witness :
  snd (tryGetAccount (Some remoteSigner) localAccounts "io1local" : Flow string)
  = Thrown (CannotFindAccount "io1local").
Proof.
  refine (proj2 (proj2 (FlowProperties.local_accounts_are_no_fallback
                          remoteSigner _ localAccounts noAccounts "io1local"
                          eq_refl)) _).
  reflexivity.
Defined.

(** On a deployment whose ABI is not JSON. *)
Lemma unparsable_abi_stops_before_any_call_witness :
  (deployContract (Some remoteSigner) localAccounts parseStub deployed
     (deploymentOf "io1remote" "not json") [] : Flow string)
  = ([], Thrown ParseAbiError).
Proof.
  refine (proj1 (FlowProperties.unparsable_abi_stops_before_any_call
                   (Some remoteSigner) localAccounts parseStub deployed called
                   (fun _ _ _ _ _ => Err (NotModelled "encode"))
                   (fun _ => Err (NotModelled "read"))
                   (fun _ _ _ _ => @Err string (NotModelled "decode"))
                   "not json" eq_refl)
            (deploymentOf "io1remote" "not json") [] eq_refl).
Defined.

(** The estimate of a transfer of one token to a plain account, and of the
    same request without a value. *)
Example one_token_estimate :
  estimate plainAccount transferEstimate
  = ([GasGetAccount "io1recipient";
      GasEstimate
        (mkEstimateActionGasRequest defaultCaller
           (Some (mkGasTransfer "1000000000000000000" "io1recipient"
                    (DataBuffer [])))
           None)],
     Returned 10000) /\
  map (fun r => option_map gt_amount (est_transfer r))
    (estimates (fst (estimate plainAccount valuelessEstimate)))
  = [Some "NaN"%string] /\
  map (fun r => option_map ge_amount (est_execution r))
    (estimates (fst (estimate contractAccount valuelessEstimate)))
  = [Some "0"%string].
Proof. vm_compute. repeat split. Qed.

(** A transfer of 1000 tokens leaves with its amount in exponential
    notation. *)
Example thousand_token_transfer :
  map amountOf
    (submitted (fst (send plainAccount
                       (request 4689 (legacyTx recipient thousandTokens 4689)))))
  = [Some "1e+21"%string].
Proof. vm_compute. reflexivity. Qed.

(** A transfer signed by a remote account, and one from an address that the
    signer does not know. *)
Example transfers_of_a_remote_signer :
  (sendTransfer (Some remoteSigner) localAccounts executed
     (transferOf "io1remote") : Flow string)
  = ([SignerGetAccount "io1remote";
      ExecuteTransfer "remote account"%string
        (mkTransferFields "100000"%string "1"%string "1"%string
           "io1recipient" EmptyString)],
     Returned "hash"%string) /\
  (sendTransfer (Some remoteSigner) localAccounts executed
     (transferOf "io1local") : Flow string)
  = ([SignerGetAccount "io1local"], Thrown (CannotFindAccount "io1local")).
Proof. vm_compute. split; reflexivity. Qed.

End Scenarios.
